(** * Portfolio backend: content schema, validation and admin transforms

    A shallow embedding of [backend/schemas.py] and of the list and slug
    transforms of [backend/admin.py], with the properties the specification
    states about them.

    Python [str] values are modelled as lists of 8-bit characters.  The
    character classes of the standard library ([str.lower], [str.strip],
    the [re] classes [\w] and [\s]) are modelled on the ASCII range: a
    character above 127 is neither a letter, a digit nor white space. *)

From Stdlib Require Import List ZArith Lia Bool Ascii Arith.
From Stdlib Require String DecimalString.
From Stdlib Require Import Permutation.
Import ListNotations.

Set Warnings "-via-type-remapping,-via-type-mismatch,-register-all".

(* ================================================================= *)
(** ** Python strings *)

Module PyStr.

Definition str : Type := list ascii.

(** Literal syntax for [str]: a quoted text denotes the list of its
    characters. *)
Inductive literal : Set :=
| lit_nil
| lit_cons (c : ascii) (l : literal).

Fixpoint literal_of_bytes (l : list Byte.byte) : literal :=
  match l with
  | [] => lit_nil
  | b :: t => lit_cons (ascii_of_byte b) (literal_of_bytes t)
  end.

Fixpoint bytes_of_literal (l : literal) : list Byte.byte :=
  match l with
  | lit_nil => []
  | lit_cons c t => byte_of_ascii c :: bytes_of_literal t
  end.

Declare Scope str_scope.
Delimit Scope str_scope with str.
String Notation str literal_of_bytes bytes_of_literal
  (via literal mapping [[nil] => lit_nil, [cons] => lit_cons]) : str_scope.

(** Character classes, on the code point. *)
Definition code (c : ascii) : nat := nat_of_ascii c.

Definition between (lo hi : nat) (c : ascii) : bool :=
  (lo <=? code c) && (code c <=? hi).

Definition is_upper (c : ascii) : bool := between 65 90 c.
Definition is_lower (c : ascii) : bool := between 97 122 c.
Definition is_digit (c : ascii) : bool := between 48 57 c.

(** [str.isspace] on the ASCII range: TAB, LF, VT, FF, CR, the four
    separators FS, GS, RS, US, and the space. *)
Definition is_space (c : ascii) : bool :=
  between 9 13 c || between 28 31 c || (code c =? 32).

(** The [re] class [\w]: letters, digits and the underscore. *)
Definition is_word (c : ascii) : bool :=
  is_lower c || is_upper c || is_digit c || (code c =? 95).

Definition to_lower (c : ascii) : ascii :=
  if is_upper c then ascii_of_nat (code c + 32) else c.

Definition to_upper (c : ascii) : ascii :=
  if is_lower c then ascii_of_nat (code c - 32) else c.

(** [s.lower()] and [s.upper()] *)
Definition lower (s : str) : str := map to_lower s.
Definition upper (s : str) : str := map to_upper s.

(** [s.capitalize()]: first character upper-cased, the rest lower-cased. *)
Definition capitalize (s : str) : str :=
  match s with
  | [] => []
  | c :: t => to_upper c :: lower t
  end.

(** Dropping the leading characters of a class, and the trailing ones. *)
Fixpoint drop_while (p : ascii -> bool) (s : str) : str :=
  match s with
  | [] => []
  | c :: t => if p c then drop_while p t else s
  end.

Definition drop_while_end (p : ascii -> bool) (s : str) : str :=
  rev (drop_while p (rev s)).

(** Stripping a class of characters at both ends. *)
Definition trim (p : ascii -> bool) (s : str) : str :=
  drop_while_end p (drop_while p s).

(** [s.strip()] *)
Definition strip (s : str) : str := trim is_space s.

(** [s.strip(chars)] for a one-character [chars]. *)
Definition strip_char (x : ascii) (s : str) : str := trim (Ascii.eqb x) s.

(** [s.split(sep)] for a one-character separator: always at least one
    piece. *)
Fixpoint split (sep : ascii) (s : str) : list str :=
  match s with
  | [] => [[]]
  | c :: t =>
      if Ascii.eqb c sep then [] :: split sep t
      else match split sep t with
           | [] => [[c]]
           | p :: ps => (c :: p) :: ps
           end
  end.

(** [sep.join(l)] *)
Fixpoint join (sep : str) (l : list str) : str :=
  match l with
  | [] => []
  | [x] => x
  | x :: rest => x ++ sep ++ join sep rest
  end.

(** [s.startswith(p)] *)
Fixpoint starts_with (p s : str) : bool :=
  match p, s with
  | [], _ => true
  | _ :: _, [] => false
  | a :: p', b :: s' => Ascii.eqb a b && starts_with p' s'
  end.

(** [needle in hay] *)
Fixpoint contains (needle hay : str) : bool :=
  starts_with needle hay ||
  match hay with
  | [] => false
  | _ :: t => contains needle t
  end.

(** [x in l] for a list of strings. *)
Definition str_eqb (a b : str) : bool :=
  if list_eq_dec ascii_dec a b then true else false.

Definition mem (x : str) (l : list str) : bool := existsb (str_eqb x) l.

(** [str(n)] and the [{n}] of an f-string, for an [int]. *)
Definition str_of_int (n : Z) : str :=
  String.list_ascii_of_string
    (DecimalString.NilZero.string_of_int (Z.to_int n)).

End PyStr.

Import PyStr.
Open Scope str_scope.
Open Scope list_scope.

(* ================================================================= *)
(** ** Exceptions *)

(** A validator either returns normally or raises [ValidationError] with
    one message. *)
Inductive outcome : Type :=
| Passed
| Raised (message : str).

Definition and_then (a b : outcome) : outcome :=
  match a with
  | Passed => b
  | Raised m => Raised m
  end.

Notation "a ;; b" := (and_then a b) (at level 61, right associativity).

Definition when (c : bool) (o : outcome) : outcome := if c then o else Passed.

Definition is_raised (o : outcome) : bool :=
  match o with
  | Passed => false
  | Raised _ => true
  end.

(* ================================================================= *)
(** ** Dates *)

Record date : Type := mkdate { year : Z; month : Z; day : Z }.

Definition is_leap (y : Z) : bool :=
  ((y mod 4 =? 0) && negb (y mod 100 =? 0) || (y mod 400 =? 0))%Z.

Definition days_in_month (y m : Z) : Z :=
  (if m =? 2 then (if is_leap y then 29 else 28)
   else if (m =? 4) || (m =? 6) || (m =? 9) || (m =? 11) then 30
   else 31)%Z.

(** The values the [datetime.date] type holds. *)
Definition valid_date (d : date) : bool :=
  ((1 <=? year d) && (year d <=? 9999) &&
   (1 <=? month d) && (month d <=? 12) &&
   (1 <=? day d) && (day d <=? days_in_month (year d) (month d)))%Z.

(** [a < b] and [a <= b] on dates: the order of (year, month, day). *)
Definition date_ltb (a b : date) : bool :=
  ((year a <? year b) ||
   ((year a =? year b) &&
    ((month a <? month b) ||
     ((month a =? month b) && (day a <? day b)))))%Z.

Definition date_eqb (a b : date) : bool :=
  ((year a =? year b) && (month a =? month b) && (day a =? day b))%Z.

Definition date_leb (a b : date) : bool := date_ltb a b || date_eqb a b.

(* ================================================================= *)
(** ** Regular-expression substitution *)

Module Re.

(** A pattern is given by its matcher at the head of a text: when the
    pattern matches there, the text that replaces the match and the
    number of characters the match consumes.  All the patterns of this
    program consume at least one character. *)
Definition matcher : Type := str -> option (str * nat).

(** [re.sub]: the text is scanned from the left; at a position where the
    pattern matches, the replacement is written and the scan resumes
    after the match; elsewhere the character is copied.  [skip] counts
    the characters of the current match still to pass over. *)
Fixpoint sub_from (m : matcher) (skip : nat) (s : str) : str :=
  match s with
  | [] => []
  | c :: t =>
      match skip with
      | S k => sub_from m k t
      | O =>
          match m s with
          | Some (repl, n) => repl ++ sub_from m (pred n) t
          | None => c :: sub_from m 0 t
          end
      end
  end.

Definition sub (m : matcher) (s : str) : str := sub_from m 0 s.

(** The longest prefix whose characters are all in a class: what a
    greedy [[...]+] consumes. *)
Fixpoint take_while (p : ascii -> bool) (s : str) : str :=
  match s with
  | [] => []
  | c :: t => if p c then c :: take_while p t else []
  end.

Definition newline : ascii := ascii_of_nat 10.
Definition hyphen : ascii := ascii_of_nat 45.
Definition underscore : ascii := ascii_of_nat 95.

(** ["(.)([A-Z][a-z]+)"] replaced by ["\1_\2"]: any character but a
    newline, then a capital, then the longest run of small letters. *)
Definition any_then_capitalized : matcher := fun s =>
  match s with
  | c :: u :: l :: rest =>
      if negb (Ascii.eqb c newline) && is_upper u && is_lower l then
        let run := take_while is_lower (l :: rest) in
        Some (c :: underscore :: u :: run, 2 + length run)
      else None
  | _ => None
  end.

(** ["([a-z0-9])([A-Z])"] replaced by ["\1_\2"]. *)
Definition small_then_capital : matcher := fun s =>
  match s with
  | c :: u :: _ =>
      if (is_lower c || is_digit c) && is_upper u then
        Some ([c; underscore; u], 2)
      else None
  | _ => None
  end.

(** [[^\w\s-]] replaced by the empty text. *)
Definition is_slug_junk (c : ascii) : bool :=
  negb (is_word c || is_space c || Ascii.eqb c hyphen).

Definition slug_junk : matcher := fun s =>
  match s with
  | c :: _ => if is_slug_junk c then Some ([], 1) else None
  | [] => None
  end.

(** [[-\s]+] replaced by ["-"]. *)
Definition is_gap (c : ascii) : bool := Ascii.eqb c hyphen || is_space c.

Definition gap_run : matcher := fun s =>
  match s with
  | c :: _ =>
      if is_gap c then Some ([hyphen], length (take_while is_gap s))
      else None
  | [] => None
  end.

(** [re.match(r"^[a-z0-9-]+$", s)]: a non-empty run of small letters,
    digits and hyphens up to the end of the text; [$] also matches just
    before a newline that ends the text. *)
Definition is_slug_char (c : ascii) : bool :=
  is_lower c || is_digit c || Ascii.eqb c hyphen.

Definition at_end (s : str) : bool :=
  match s with
  | [] => true
  | [c] => Ascii.eqb c newline
  | _ => false
  end.

Definition match_slug_pattern (s : str) : bool :=
  let run := take_while is_slug_char s in
  negb (length run =? 0) && at_end (skipn (length run) s).

End Re.

(* ================================================================= *)
(** ** schemas.py *)

Module Schemas.

(** *** Field-name transforms *)

Definition snake_to_camel (name : str) : str :=
  let components := split Re.underscore name in
  hd [] components ++ concat (map capitalize (tl components)).

Definition camel_to_snake (name : str) : str :=
  let s1 := Re.sub Re.any_then_capitalized name in
  lower (Re.sub Re.small_then_capital s1).

(** [CamelCaseSchema.on_bind_field]: the data key of a field is the
    camel-case form of its declared key, or of its name. *)
Definition on_bind_field (field_name : str) (data_key : option str) : str :=
  snake_to_camel (match data_key with
                  | Some k => if (length k =? 0)%nat then field_name else k
                  | None => field_name
                  end).

(** *** marshmallow fields *)

(** [validate.Length(min=lo, max=hi)], a missing bound being no bound. *)
Definition Length (lo hi : option nat) (s : str) : bool :=
  match lo with Some n => (n <=? length s)%nat | None => true end &&
  match hi with Some n => (length s <=? n)%nat | None => true end.

(** The value of an attribute of a stored object: the attribute may be
    absent (marshmallow's [missing] marker), [None], or a value. *)
Inductive attribute (A : Type) : Type :=
| Absent
| Null
| Value (a : A).
Arguments Absent {A}.
Arguments Null {A}.
Arguments Value {A} a.

Inductive json : Type :=
| JNull
| JString (s : str)
| JArray (items : list json)
| JObject (members : list (str * json)).

(** The options of a [fields.List] declaration.  marshmallow spells the
    default used when loading [missing] (later [load_default]) and the
    default used when dumping [default] (later [dump_default]). *)
Record ListField : Type := mkListField {
  allow_none : bool;
  missing : option (list json);
  default : option (list json)
}.

(** [Field.serialize] on a [fields.List]: an absent attribute takes the
    dump default, and is left out of the output when there is none;
    [List._serialize] returns [None] for [None]. *)
Definition serialize_list {A : Type} (f : ListField) (inner : A -> json)
           (v : attribute (list A)) : option json :=
  match v with
  | Absent =>
      match default f with
      | Some d => Some (JArray d)
      | None => None
      end
  | Null => Some JNull
  | Value l => Some (JArray (map inner l))
  end.

(** [fields.List(fields.Str(), allow_none=True, missing=[])]: the
    declaration of [ProjectSchema.tech], [ExperienceSchema.bullets] and
    [ExperienceSchema.tech]. *)
Definition project_tech : ListField :=
  {| allow_none := true; missing := Some []; default := None |}.

Definition experience_bullets : ListField :=
  {| allow_none := true; missing := Some []; default := None |}.

Definition experience_tech : ListField :=
  {| allow_none := true; missing := Some []; default := None |}.

(** [fields.List(fields.Nested(SocialLinkSchema), allow_none=True,
    missing=[])]: the declaration of [SiteMetaSchema.social_links]. *)
Definition site_meta_social_links : ListField :=
  {| allow_none := true; missing := Some []; default := None |}.

(** *** SocialLinkSchema and SiteMetaSchema *)

(** A loaded social link is a dict; the validator reads it with
    [link.get(key, '')]. *)
Record SocialLink : Type := mkLink {
  platform : option str;
  url : option str;
  icon : option str
}.

Definition get (field : option str) (dflt : str) : str :=
  match field with
  | Some v => v
  | None => dflt
  end.

Definition dump_link (l : SocialLink) : json :=
  JObject [("platform", JString (get (platform l) []));
           ("url", JString (get (url l) []));
           ("icon", JString (get (icon l) []))].

(** The body of the loop of [SiteMetaSchema.validate_social_links];
    [platforms] is the list built so far. *)
Fixpoint check_links (platforms : list str) (links : list SocialLink)
  : outcome :=
  match links with
  | [] => Passed
  | link :: rest =>
      let platform := lower (get (platform link) []) in
      if mem platform platforms then
        Raised "Duplicate social media platform found"
      else
        let platforms := platforms ++ [platform] in
        let url := get (url link) [] in
        if str_eqb platform "github" && negb (contains "github.com" url) then
          Raised "GitHub URL must contain github.com"
        else if str_eqb platform "linkedin"
                && negb (contains "linkedin.com" url) then
          Raised "LinkedIn URL must contain linkedin.com"
        else if str_eqb platform "twitter"
                && negb (existsb (fun domain => contains domain url)
                                 ["twitter.com"; "x.com"]) then
          Raised "Twitter URL must contain twitter.com or x.com"
        else check_links platforms rest
  end.

(** [data.get("social_links", [])] is [None] here when the key is absent
    or holds [None]; both are falsy, as is the empty list. *)
Definition validate_social_links (social_links : option (list SocialLink))
  : outcome :=
  match social_links with
  | Some (l :: ls) => check_links [] (l :: ls)
  | _ => Passed
  end.

(** *** ProjectSchema *)

Definition validate_slug_format (slug : option str) : outcome :=
  match slug with
  | Some slug =>
      when (negb (Re.match_slug_pattern slug))
        (Raised "Slug must contain only lowercase letters, numbers, and hyphens")
  | None => Passed
  end.

(** *** ExperienceSchema *)

(** The columns of an Experience row (models.py). *)
Record Experience : Type := mkExperience {
  company : str;
  role : str;
  location : option str;
  start_date : date;
  end_date : option date;
  bullets : attribute (list str);
  tech : attribute (list str);
  order_index : Z
}.

(** [obj.end_date or date.today()]: a date is always truthy. *)
Definition effective_end (today : date) (obj : Experience) : date :=
  match end_date obj with
  | Some e => e
  | None => today
  end.

(** Lines 103-108 of [calculate_duration]: the pair (years, months). *)
Definition duration_counts (start end_ : date) : Z * Z :=
  let years := (year end_ - year start)%Z in
  let months := (month end_ - month start)%Z in
  if (months <? 0)%Z then ((years - 1)%Z, (months + 12)%Z)
  else (years, months).

(** ['s' if n != 1 else ''] *)
Definition plural (n : Z) : str := if negb (n =? 1)%Z then "s" else [].

Definition calculate_duration (today : date) (obj : Experience) : str :=
  let start := start_date obj in
  let end_ := effective_end today obj in
  let '(years, months) := duration_counts start end_ in
  if (years >? 0)%Z && (months >? 0)%Z then
    str_of_int years ++ " yr" ++ plural years ++ " "
      ++ str_of_int months ++ " mo" ++ plural months
  else if (years >? 0)%Z then
    str_of_int years ++ " yr" ++ plural years
  else if (months >? 0)%Z then
    str_of_int months ++ " mo" ++ plural months
  else "Less than 1 month".

Definition calculate_is_current (obj : Experience) : bool :=
  match end_date obj with
  | None => true
  | Some _ => false
  end.

(** [validate_dates]; the two arguments are [data.get("start_date")] and
    [data.get("end_date")]. *)
Definition validate_dates (today : date) (start_date end_date : option date)
  : outcome :=
  when (match start_date, end_date with
        | Some s, Some e => date_leb e s
        | _, _ => false
        end)
    (Raised "End date must be after start date") ;;
  when (match start_date with
        | Some s => date_ltb today s
        | None => false
        end)
    (Raised "Start date cannot be in the future").

(** *** ContactMessageSchema *)

(** The field validator of [message]. *)
Definition message_field_ok (message : str) : bool :=
  Length (Some 10%nat) (Some 5000%nat) message.

(** [validate_message_content]; the argument is [None] when ["message"]
    is not in [data]. *)
Definition validate_message_content (message : option str) : outcome :=
  match message with
  | Some message =>
      let message := strip message in
      when (length message <? 10)%nat
        (Raised "Message must be at least 10 characters long")
  | None => Passed
  end.

End Schemas.

(* ================================================================= *)
(** ** admin.py *)

Module Admin.

(** [ProjectAdmin.generate_slug] *)
Definition generate_slug (title : str) : str :=
  let slug := lower title in
  let slug := Re.sub Re.slug_junk slug in
  let slug := Re.sub Re.gap_run slug in
  strip_char Re.hyphen slug.

(** Truthiness of a string and of a list. *)
Definition truthy {A : Type} (l : list A) : bool :=
  match l with
  | [] => false
  | _ :: _ => true
  end.

(** [[x.strip() for x in data.split(sep) if x.strip()]] *)
Definition parse_entries (sep : ascii) (data : str) : list str :=
  map strip (filter (fun x => truthy (strip x)) (split sep data)).

Definition comma : ascii := ascii_of_nat 44.

(** The list part of [on_model_change], for [tech] (separator [","]) and
    [bullets] (separator ["\n"]): [form_data] is the text of the form
    field, [None] when it holds no text; a falsy text leaves the stored
    list as it is. *)
Definition store_entries (sep : ascii) (form_data : option str)
           (stored : option (list str)) : option (list str) :=
  match form_data with
  | Some data => if truthy data then Some (parse_entries sep data) else stored
  | None => stored
  end.

(** The list part of [on_form_prefill]: the text put in the form field,
    [None] when the stored list is [None] or empty and the field is left
    alone. *)
Definition prefill_entries (glue : str) (stored : option (list str))
  : option str :=
  match stored with
  | Some (x :: l) => Some (join glue (x :: l))
  | _ => None
  end.

(** Truthiness of an attribute that is [None] or a string or list. *)
Definition truthy_opt {A : Type} (o : option (list A)) : bool :=
  match o with
  | Some l => truthy l
  | None => false
  end.

(** The slug part of [ProjectAdmin.on_model_change]:
    [if not model.slug and model.title: model.slug = generate_slug(...)]. *)
Definition resolve_slug (slug title : option str) : option str :=
  match title with
  | Some t =>
      if negb (truthy_opt slug) && truthy t then Some (generate_slug t)
      else slug
  | None => slug
  end.

End Admin.

(* ================================================================= *)
(** ** The specification's wording, for comparison with the code *)

Module Spec.

(** "[N] yr(s)": the count, the unit, and a trailing "s" exactly when
    the count is not 1. *)
Definition count_text (n : Z) (unit : str) : str :=
  str_of_int n ++ " " ++ unit ++ (if (n =? 1)%Z then [] else "s").

(** The duration of section 4.2, by the specification's words; [counts]
    decides which of the two counts are rendered. *)
Definition duration_by (counts : Z -> bool) (s e : date) : str :=
  let years := (year e - year s)%Z in
  let months := (month e - month s)%Z in
  let years := if (months <? 0)%Z then (years - 1)%Z else years in
  let months := if (months <? 0)%Z then (months + 12)%Z else months in
  match counts years, counts months with
  | true, true => count_text years "yr" ++ " " ++ count_text months "mo"
  | true, false => count_text years "yr"
  | false, true => count_text months "mo"
  | false, false => "Less than 1 month"
  end.

Definition nonzero (n : Z) : bool := negb (n =? 0)%Z.
Definition positive (n : Z) : bool := (0 <? n)%Z.

(** The effective end date: the stored end date, or today when null. *)
Definition end_or_today (today : date) (end_date : option date) : date :=
  match end_date with
  | Some e => e
  | None => today
  end.

(** An entry that the list round trip returns as it is: not empty, without
    leading or trailing white space, and without the separator. *)
Definition clean_entry (sep : ascii) (x : str) : bool :=
  Admin.truthy x && str_eqb (strip x) x && negb (existsb (Ascii.eqb sep) x).

(** The entries C4 quantifies over: not empty after trimming, and without
    the separator. *)
Definition nonblank_entry (sep : ascii) (x : str) : bool :=
  Admin.truthy (strip x) && negb (existsb (Ascii.eqb sep) x).

(** No white space, and no hyphen next to a hyphen; [after_hyphen] tells
    whether the character before the text is a hyphen. *)
Fixpoint tidy (after_hyphen : bool) (s : str) : bool :=
  match s with
  | [] => true
  | c :: t =>
      negb (is_space c) && negb (after_hyphen && Ascii.eqb c Re.hyphen)
      && tidy (Ascii.eqb c Re.hyphen) t
  end.

Definition starts_with_hyphen (s : str) : bool :=
  match s with
  | c :: _ => Ascii.eqb Re.hyphen c
  | [] => false
  end.

(** A slug in canonical form: a valid slug (small letters, digits and
    hyphens, not empty) whose hyphens are single and stand between other
    characters. *)
Definition canonical_slug (s : str) : bool :=
  Admin.truthy s && forallb Re.is_slug_char s && tidy true s
  && negb (starts_with_hyphen (rev s)).

(** A word of the identifier vocabulary: small letters, at least one. *)
Definition lowercase_word (w : str) : bool :=
  Admin.truthy w && forallb is_lower w.

Definition single_letter (w : str) : bool := (length w =? 1)%nat.

(** No two one-letter words next to each other. *)
Fixpoint no_adjacent_singles (ws : list str) : bool :=
  match ws with
  | a :: ((b :: _) as rest) =>
      negb (single_letter a && single_letter b) && no_adjacent_singles rest
  | _ => true
  end.

(** The capitalized words of a camel-case name after the first
    substitution of [camel_to_snake]: an underscore stands before a word
    of two or more letters when the character before it is [free], that
    is, not consumed by the match of the word before. *)
Fixpoint marked (free : bool) (ws : list str) : str :=
  match ws with
  | [] => []
  | w :: rest =>
      if single_letter w then capitalize w ++ marked true rest
      else if free then Re.underscore :: capitalize w ++ marked false rest
      else capitalize w ++ marked true rest
  end.

(** The field names declared by the schemas. *)
Definition field_names : list str :=
  ["id"; "title"; "slug"; "short_desc"; "long_md"; "tech"; "github_url";
   "demo_url"; "cover_image"; "featured"; "order_index"; "created_at";
   "company"; "role"; "location"; "start_date"; "end_date"; "bullets";
   "duration"; "is_current"; "name"; "email"; "message"; "replied";
   "hero_title"; "hero_subtitle"; "bio_md"; "social_links"; "avatar_image";
   "profile_image"; "platform"; "url"; "icon"].

(** The platform name as the uniqueness rule compares it. *)
Definition platform_key (l : Schemas.SocialLink) : str :=
  lower (Schemas.get (Schemas.platform l) []).

(** The domains one of which the URL of a known platform must contain. *)
Definition required_domains (key : str) : option (list str) :=
  if str_eqb key "github" then Some ["github.com"]
  else if str_eqb key "linkedin" then Some ["linkedin.com"]
  else if str_eqb key "twitter" then Some ["twitter.com"; "x.com"]
  else None.

Definition domain_ok (l : Schemas.SocialLink) : bool :=
  match required_domains (platform_key l) with
  | Some domains =>
      existsb (fun d => contains d (Schemas.get (Schemas.url l) [])) domains
  | None => true
  end.

(** All the violations of a record, in the order the rules are checked:
    what section 4.3 asks the engine to report. *)
Definition date_violations (today : date) (start_date end_date : option date)
  : list str :=
  (match start_date, end_date with
   | Some s, Some e =>
       if date_leb e s then ["End date must be after start date"] else []
   | _, _ => []
   end) ++
  (match start_date with
   | Some s =>
       if date_ltb today s then ["Start date cannot be in the future"] else []
   | None => []
   end).

Definition domain_violation (l : Schemas.SocialLink) : list str :=
  if domain_ok l then []
  else if str_eqb (platform_key l) "github" then
    ["GitHub URL must contain github.com"]
  else if str_eqb (platform_key l) "linkedin" then
    ["LinkedIn URL must contain linkedin.com"]
  else ["Twitter URL must contain twitter.com or x.com"].

Fixpoint link_violations (seen : list str) (links : list Schemas.SocialLink)
  : list str :=
  match links with
  | [] => []
  | l :: rest =>
      (if mem (platform_key l) seen
       then ["Duplicate social media platform found"] else [])
      ++ domain_violation l
      ++ link_violations (seen ++ [platform_key l]) rest
  end.

(** The messages a validator reports: none, or the one it raised. *)
Definition reported (o : outcome) : list str :=
  match o with
  | Passed => []
  | Raised m => [m]
  end.

(** Reporting the first violation only. *)
Definition first_of (violations : list str) : outcome :=
  match violations with
  | [] => Passed
  | m :: _ => Raised m
  end.

(** A text without the character "-". *)
Definition hyphen_free (s : str) : Prop := ~ In Re.hyphen s.

End Spec.

(* ================================================================= *)
(** ** admin.py: login, upload and list views *)

Module AdminViews.

(** The value of a function that returns or raises [ValueError]. *)
Inductive result (A : Type) : Type :=
| Ok (value : A)
| ValueError (message : str).
Arguments Ok {A} value.
Arguments ValueError {A} message.

(** [os.getenv(key, default)]; the environment gives the variables that
    are set. *)
Definition getenv (env : str -> option str) (key dflt : str) : str :=
  match env key with
  | Some v => v
  | None => dflt
  end.

(** [authenticate]; the arguments are [request.form.get(...)], [None] when
    the form has no such field. *)
Definition authenticate (env : str -> option str)
           (username password : option str) : bool :=
  let admin_user := getenv env "ADMIN_USER" "admin" in
  let admin_pass := getenv env "ADMIN_PASS" "admin" in
  match username, password with
  | Some u, Some p => str_eqb u admin_user && str_eqb p admin_pass
  | _, _ => false
  end.

(** The session, as far as the admin views use it: the value stored under
    ['admin_authenticated'], if any. *)
Definition Session : Type := option bool.

(** [session.get('admin_authenticated', False)] *)
Definition is_authenticated (s : Session) : bool :=
  match s with
  | Some b => b
  | None => false
  end.

Inductive response : Type :=
| AdminIndex
| LoginPage (flashed : list str)
| Redirect (endpoint : str).

Inductive request : Type :=
| GetIndex
| GetLogin
| PostLogin (username password : option str)
| GetLogout.

(** [MyAdminIndexView.index] *)
Definition index (s : Session) : response * Session :=
  if negb (is_authenticated s) then (Redirect ".login_view", s)
  else (AdminIndex, s).

(** [MyAdminIndexView.login_view]; [form] is [None] for a GET. *)
Definition login_view (env : str -> option str)
           (form : option (option str * option str)) (s : Session)
  : response * Session :=
  match form with
  | Some (username, password) =>
      if authenticate env username password then (Redirect ".index", Some true)
      else (LoginPage ["Invalid credentials"], s)
  | None => (LoginPage [], s)
  end.

(** [MyAdminIndexView.logout_view]: [session.pop('admin_authenticated',
    None)]. *)
Definition logout_view (s : Session) : response * Session :=
  (Redirect ".login_view", None).

(** [AuthenticatedModelView.is_accessible] *)
Definition is_accessible (s : Session) : bool := is_authenticated s.

Definition handle (env : str -> option str) (r : request) (s : Session)
  : response * Session :=
  match r with
  | GetIndex => index s
  | GetLogin => login_view env None s
  | PostLogin u p => login_view env (Some (u, p)) s
  | GetLogout => logout_view s
  end.

(** The session after a sequence of requests. *)
Definition run (env : str -> option str) (rs : list request) (s : Session)
  : Session :=
  fold_left (fun s r => snd (handle env r s)) rs s.

(** The formatter of [ContactMessageAdmin.column_formatters]:
    [m.message[:100] + '...' if len(m.message) > 100 else m.message]. *)
Definition message_preview (message : str) : str :=
  if (100 <? length message)%nat then firstn 100 message ++ "..."
  else message.

(** *** The cover image of a project *)

Definition dot : ascii := ascii_of_nat 46.

Definition allowed_extensions : list str :=
  ["jpg"; "jpeg"; "png"; "webp"; "gif"].

(** [filename.rsplit('.', 1)[1].lower() if '.' in filename else '']: the
    text after the last dot, in small letters. *)
Definition file_ext (filename : str) : str :=
  if existsb (Ascii.eqb dot) filename
  then lower (last (split dot filename) [])
  else [].

(** The upload part of [ProjectAdmin.on_model_change]; [filename] is the
    name [secure_filename] returned.  The result is the new value of
    [model.cover_image]. *)
Definition cover_image_path (filename : str) : result str :=
  if negb (mem (file_ext filename) allowed_extensions) then
    ValueError ("Invalid file type. Allowed types: "
                  ++ join ", " allowed_extensions)
  else Ok ("content/images/projects/" ++ filename).

(** *** The slug of a project *)

(** A stored project, as far as the slug check reads it. *)
Record ProjectRow : Type := mkProjectRow {
  row_id : Z;
  row_slug : str
}.

(** [Project.id != model.id]; the id of a model not yet stored is
    [None], which no stored id equals. *)
Definition other_than (model_id : option Z) (r : ProjectRow) : bool :=
  match model_id with
  | Some i => negb (row_id r =? i)%Z
  | None => true
  end.

(** [Project.query.filter(Project.slug == model.slug,
    Project.id != model.id).first()] *)
Definition existing (rows : list ProjectRow) (model_id : option Z)
           (slug : str) : option ProjectRow :=
  find (fun r => str_eqb (row_slug r) slug && other_than model_id r) rows.

(** The slug part of [ProjectAdmin.on_model_change]: the slug is derived
    when absent, and a slug another project has is refused.  The result
    is the new value of [model.slug]. *)
Definition on_model_change_slug (rows : list ProjectRow)
           (model_id : option Z) (slug title : option str)
  : result (option str) :=
  let slug := Admin.resolve_slug slug title in
  match slug with
  | Some (c :: s) =>
      match existing rows model_id (c :: s) with
      | Some _ =>
          ValueError ("Slug '" ++ (c :: s)
                        ++ "' already exists. Please choose a different title or slug.")
      | None => Ok slug
      end
  | _ => Ok slug
  end.

End AdminViews.

(* ================================================================= *)
(** ** routes *)

Module Routes.

(** *** routes/projects.py *)

Inductive featured_choice : Type :=
| NoFilter
| Featured (flag : bool)
| InvalidFeatured.

(** The reading of the [featured] query parameter in [get_projects];
    [InvalidFeatured] is the 400 response. *)
Definition featured_filter (featured_param : option str) : featured_choice :=
  match featured_param with
  | None => NoFilter
  | Some p =>
      if mem (lower p) ["true"; "1"; "yes"] then Featured true
      else if mem (lower p) ["false"; "0"; "no"] then Featured false
      else InvalidFeatured
  end.

(** *** routes/contact.py *)

(** The JSON object of a submission, as far as the schema reads it: each
    of the three fields is a string or is missing. *)
Record ContactPayload : Type := mkPayload {
  name : option str;
  email : option str;
  message : option str
}.

(** The record [submit_contact] stores. *)
Record ContactRecord : Type := mkContact {
  contact_name : str;
  contact_email : str;
  contact_message : str
}.

(** [contact_message_schema.load]: every field is required and passes its
    validators, [is_email] being the address syntax of [fields.Email];
    the schema-level validator runs when the fields passed.  [None] is a
    [ValidationError]. *)
Definition load (is_email : str -> bool) (data : ContactPayload)
  : option ContactRecord :=
  match name data, email data, message data with
  | Some n, Some e, Some m =>
      if Schemas.Length (Some 1%nat) (Some 200%nat) n
         && (is_email e && Schemas.Length None (Some 200%nat) e)
         && Schemas.message_field_ok m
      then match Schemas.validate_message_content (Some m) with
           | Passed => Some (mkContact n e m)
           | Raised _ => None
           end
      else None
  | _, _, _ => None
  end.

(** [submit_contact]: the status of the response and the record stored.
    [data] is [None] when the body is falsy; [commit_ok] tells whether the
    database accepted the record, [email_sent] what [send_contact_email]
    returned. *)
Definition submit_contact (is_email : str -> bool) (is_json : bool)
           (data : option ContactPayload) (commit_ok email_sent : bool)
  : Z * option ContactRecord :=
  if negb is_json then (400%Z, None)
  else match data with
       | None => (400%Z, None)
       | Some d =>
           match load is_email d with
           | None => (400%Z, None)
           | Some record =>
               if commit_ok then (201%Z, Some record) else (500%Z, None)
           end
       end.

End Routes.

(* ================================================================= *)
(** ** Scripts *)

Module Scripts.

(** *** add_image_fields_migration.py *)

(** The two image columns of a [site_meta] row; [None] is NULL. *)
Record MetaImages : Type := mkImages {
  avatar_image : option str;
  profile_image : option str
}.

(** The columns of [site_meta] after the two [ALTER TABLE] statements;
    both tests read the column list fetched before the first one. *)
Definition add_columns (columns : list str) : list str :=
  let added := if negb (mem "avatar_image" columns)
               then columns ++ ["avatar_image"] else columns in
  if negb (mem "profile_image" columns)
  then added ++ ["profile_image"] else added.

(** The [UPDATE site_meta SET avatar_image = 'avatar.webp', profile_image
    = 'profile.webp' WHERE avatar_image IS NULL OR profile_image IS NULL],
    on one row. *)
Definition update_row (r : MetaImages) : MetaImages :=
  match avatar_image r, profile_image r with
  | Some _, Some _ => r
  | _, _ => mkImages (Some "avatar.webp") (Some "profile.webp")
  end.

Definition update_rows (rows : list MetaImages) : list MetaImages :=
  map update_row rows.

(** *** validate_deployment.py *)

Definition required_packages : list str :=
  ["Flask"; "gunicorn"; "SQLAlchemy"; "Alembic"; "psycopg2-binary"].

(** The list [missing] of [check_requirements], for the text of
    requirements.txt. *)
Definition missing_packages (content : str) : list str :=
  filter (fun package => negb (contains (lower package) (lower content)))
         required_packages.

(** [check_requirements]; [content] is [None] when the file does not
    exist. *)
Definition check_requirements (content : option str) : bool :=
  match content with
  | None => false
  | Some c => negb (Admin.truthy (missing_packages c))
  end.

(** [sum(checks)] for a list of booleans. *)
Definition sum (checks : list bool) : nat :=
  list_sum (map (fun b : bool => if b then 1 else 0) checks).

(** The exit status of [main], from the results of its checks. *)
Definition main (checks : list bool) : Z :=
  let passed := sum checks in
  let total := length checks in
  if (passed =? total)%nat then 0%Z else 1%Z.

End Scripts.

(* ================================================================= *)
(** ** Vocabulary of the further properties *)

Module Facts.

(** A character of the ASCII range, where the model of the character
    classes is that of Python. *)
Definition is_ascii (c : ascii) : bool := (code c <? 128)%nat.

Definition is_alnum (c : ascii) : bool :=
  is_lower c || is_upper c || is_digit c.

(** The characters a derived slug is made of. *)
Definition is_slug_letter (c : ascii) : bool :=
  is_lower c || is_digit c || Ascii.eqb c Re.underscore
  || Ascii.eqb c Re.hyphen.

(** An identifier of the vocabulary of the field names: lowercase words,
    no two one-letter words after the first next to each other. *)
Definition identifier_words (ws : list str) : bool :=
  match ws with
  | [] => false
  | w :: rest =>
      forallb Spec.lowercase_word (w :: rest) && Spec.no_adjacent_singles rest
  end.

(** The number of months from the month of [s] to the month of [e]. *)
Definition months_between (s e : date) : Z :=
  (12 * (year e - year s) + (month e - month s))%Z.

End Facts.

(* ================================================================= *)
(** ** Properties: the duration of an Experience *)

Section Duration.

Import Schemas Spec.

Lemma hyphen_free_app (a b : str) :
  hyphen_free a -> hyphen_free b -> hyphen_free (a ++ b).
Proof.
  unfold hyphen_free. intros Ha Hb Hin.
  apply in_app_or in Hin. tauto.
Qed.

Lemma uint_digits (d : Decimal.uint) :
  hyphen_free
    (String.list_ascii_of_string (DecimalString.NilEmpty.string_of_uint d)).
Proof.
  induction d; simpl;
    try (intros [E | H]; [discriminate E | exact (IHd H)]).
  intros [].
Qed.

Lemma str_of_int_nonneg (n : Z) : (0 <= n)%Z -> hyphen_free (str_of_int n).
Proof.
  intros Hn. unfold str_of_int, Z.to_int.
  destruct n as [| p | p]; [| | lia].
  - cbv. intros [E | []]. discriminate E.
  - unfold DecimalString.NilZero.string_of_int,
      DecimalString.NilZero.string_of_uint.
    destruct (Pos.to_uint p) as [| d | d | d | d | d | d | d | d | d | d];
      [cbv; intros [E' | []]; discriminate E' | ..];
      match goal with
      | |- context [DecimalString.NilEmpty.string_of_uint ?x] =>
          apply (uint_digits x)
      end.
Qed.

Lemma plural_hyphen_free (n : Z) : hyphen_free (plural n).
Proof.
  unfold plural. destruct (negb (n =? 1)%Z); cbv; intuition discriminate.
Qed.

Lemma duration_counts_spec (s e : date) :
  duration_counts s e =
  (let dm := (month e - month s)%Z in
   let dy := (year e - year s)%Z in
   (if (dm <? 0)%Z then (dy - 1)%Z else dy,
    if (dm <? 0)%Z then (dm + 12)%Z else dm)).
Proof.
  unfold duration_counts. cbv zeta.
  destruct (month e - month s <? 0)%Z; reflexivity.
Qed.

Lemma duration_counts_bounds (s e : date) :
  valid_date s = true -> valid_date e = true -> date_leb s e = true ->
  (0 <= fst (duration_counts s e))%Z /\
  (0 <= snd (duration_counts s e) <= 11)%Z.
Proof.
  unfold valid_date, date_leb, date_ltb, date_eqb.
  intros Hs He Hle. rewrite duration_counts_spec. cbv zeta.
  repeat rewrite Bool.andb_true_iff in Hs, He.
  repeat rewrite Bool.orb_true_iff in Hle.
  repeat rewrite Bool.andb_true_iff in Hle.
  destruct (month e - month s <? 0)%Z eqn:Hm; simpl; lia.
Qed.

Lemma calculate_duration_hyphen_free (today : date) (obj : Experience) :
  (0 <= fst (duration_counts (start_date obj) (effective_end today obj)))%Z ->
  (0 <= snd (duration_counts (start_date obj) (effective_end today obj)))%Z ->
  hyphen_free (calculate_duration today obj).
Proof.
  unfold calculate_duration.
  destruct (duration_counts _ _) as [y m]. simpl fst; simpl snd.
  intros Hy Hm.
  assert (L : forall t : str, ~ In Re.hyphen t -> hyphen_free t)
    by (intros t H; exact H).
  destruct (_ && _); [| destruct (y >? 0)%Z; [| destruct (m >? 0)%Z]];
    repeat apply hyphen_free_app;
    auto using str_of_int_nonneg, plural_hyphen_free;
    apply L; cbv; intuition discriminate.
Qed.

Lemma nonzero_positive (n : Z) :
  (0 <= n)%Z -> Spec.nonzero n = Spec.positive n.
Proof. unfold Spec.nonzero, Spec.positive. lia. Qed.

(** On a record whose effective end date is not before its start date
    the two readings of "nonzero" and "positive" coincide. *)
Lemma duration_nonzero_when_ordered (s e : date) :
  valid_date s = true -> valid_date e = true -> date_leb s e = true ->
  Spec.duration_by Spec.nonzero s e = Spec.duration_by Spec.positive s e.
Proof.
  intros Hs He Hle.
  destruct (duration_counts_bounds s e Hs He Hle) as [Hy Hm].
  rewrite duration_counts_spec in Hy, Hm. cbv zeta in Hy, Hm.
  unfold Spec.duration_by. cbv zeta.
  destruct (month e - month s <? 0)%Z; simpl fst in Hy; simpl snd in Hm;
    rewrite !nonzero_positive by lia; reflexivity.
Qed.

End Duration.

(** C1 (amended).  For every Experience record and every reference date,
    the derived duration is computed from the start date and the effective
    end date (the stored end date, or today when it is null) as
    years = e.year - s.year and months = e.month - s.month, with years
    decremented by 1 and months increased by 12 when months < 0, and is
    rendered as "N yr(s) M mo(s)" when both counts are positive, "N yr(s)"
    when only years is positive, "M mo(s)" when only months is positive and
    "Less than 1 month" otherwise, with a trailing "s" exactly when the
    count is not 1.  A start date of 2022-03-01 with a null end date on the
    reference date 2024-03-01 gives "2 yrs", and with the end date
    2022-06-01 it gives "3 mos". *)
Theorem calculate_duration_rendering :
  (forall (today : date) (obj : Schemas.Experience),
      Schemas.calculate_duration today obj =
      Spec.duration_by Spec.positive (Schemas.start_date obj)
        (Spec.end_or_today today (Schemas.end_date obj))) /\
  (forall company role location bullets tech order_index,
      Schemas.calculate_duration (mkdate 2024 3 1)
        (Schemas.mkExperience company role location (mkdate 2022 3 1) None
           bullets tech order_index) = "2 yrs") /\
  (forall today company role location bullets tech order_index,
      Schemas.calculate_duration today
        (Schemas.mkExperience company role location (mkdate 2022 3 1)
           (Some (mkdate 2022 6 1)) bullets tech order_index) = "3 mos").
Proof.
  split; [| split; intros; reflexivity].
  intros today obj.
  unfold Schemas.calculate_duration, Schemas.effective_end,
    Spec.end_or_today, Spec.duration_by, Spec.positive, Spec.count_text,
    Schemas.plural.
  rewrite duration_counts_spec. cbv zeta.
  set (e := match Schemas.end_date obj with Some d => d | None => today end).
  destruct (month e - month (Schemas.start_date obj) <? 0)%Z;
    match goal with
    | |- context [(?a >? 0)%Z && (?b >? 0)%Z] =>
        generalize a as y; generalize b as m
    end;
    intros m y; rewrite !Z.gtb_ltb;
    destruct (0 <? y)%Z, (0 <? m)%Z; simpl andb; cbv iota;
    destruct (y =? 1)%Z, (m =? 1)%Z; simpl negb; cbv iota;
    rewrite <- ?app_assoc; reflexivity.
Qed.

(** C1 as stated fails.  An Experience starting on 2025-01-01 with a null
    end date, read on the reference date 2024-03-01, has years = -1 and
    months = 2: the wording "when both are nonzero" gives "-1 yrs 2 mos",
    the code gives "2 mos".  With the start date 2024-03-01 and the stored
    end date 2022-03-01 the counts are years = -2 and months = 0: the
    wording gives "-2 yrs", the code gives "Less than 1 month". *)
Lemma calculate_duration_nonzero_fails :
  Schemas.calculate_duration (mkdate 2024 3 1)
    (Schemas.mkExperience "Acme" "Engineer" None (mkdate 2025 1 1)
       None Schemas.Null Schemas.Null 0)
  <> Spec.duration_by Spec.nonzero (mkdate 2025 1 1)
       (Spec.end_or_today (mkdate 2024 3 1) None) /\
  Schemas.calculate_duration (mkdate 2024 3 1)
    (Schemas.mkExperience "Acme" "Engineer" None (mkdate 2024 3 1)
       (Some (mkdate 2022 3 1)) Schemas.Null Schemas.Null 0)
  <> Spec.duration_by Spec.nonzero (mkdate 2024 3 1)
       (Spec.end_or_today (mkdate 2024 3 1) (Some (mkdate 2022 3 1))).
Proof. split; vm_compute; discriminate. Qed.

(** C10.  For all dates s and e with s <= e, the pair (years, months) of
    the duration calculation satisfies years >= 0 and 0 <= months <= 11,
    and the rendered duration contains no minus sign.  The calculation is
    a total function of the two dates. *)
Theorem duration_counts_nonnegative (today : date) (obj : Schemas.Experience) :
  valid_date (Schemas.start_date obj) = true ->
  valid_date (Schemas.effective_end today obj) = true ->
  date_leb (Schemas.start_date obj) (Schemas.effective_end today obj) = true ->
  (0 <= fst (Schemas.duration_counts (Schemas.start_date obj)
               (Schemas.effective_end today obj)))%Z /\
  (0 <= snd (Schemas.duration_counts (Schemas.start_date obj)
               (Schemas.effective_end today obj)) <= 11)%Z /\
  ~ In Re.hyphen (Schemas.calculate_duration today obj).
Proof.
  intros Hs He Hle.
  destruct (duration_counts_bounds _ _ Hs He Hle) as [Hy Hm].
  repeat split; try tauto.
  apply calculate_duration_hyphen_free; tauto.
Qed.

Lemma duration_counts_nonnegative_witness :
  (0 <= fst (Schemas.duration_counts (mkdate 2020 11 15) (mkdate 2022 1 3)))%Z /\
  (0 <= snd (Schemas.duration_counts (mkdate 2020 11 15) (mkdate 2022 1 3))
   <= 11)%Z /\
  ~ In Re.hyphen
      (Schemas.calculate_duration (mkdate 2024 3 1)
         (Schemas.mkExperience "Acme" "Engineer" None (mkdate 2020 11 15)
            (Some (mkdate 2022 1 3)) Schemas.Null Schemas.Null 0)).
Proof.
  apply (duration_counts_nonnegative (mkdate 2024 3 1)
           (Schemas.mkExperience "Acme" "Engineer" None (mkdate 2020 11 15)
              (Some (mkdate 2022 1 3)) Schemas.Null Schemas.Null 0));
    reflexivity.
Defined.

(* ================================================================= *)
(** ** Properties: strings *)

Section StringFacts.

Lemma str_eqb_eq (a b : str) : str_eqb a b = true <-> a = b.
Proof.
  unfold str_eqb. destruct (list_eq_dec ascii_dec a b); split;
    congruence.
Qed.

Lemma str_eqb_refl (a : str) : str_eqb a a = true.
Proof. apply str_eqb_eq. reflexivity. Qed.

Lemma mem_In (x : str) (l : list str) : mem x l = true <-> In x l.
Proof.
  unfold mem. rewrite existsb_exists. split.
  - intros (y & Hy & E). apply str_eqb_eq in E. subst. exact Hy.
  - intros H. exists x. split; [exact H | apply str_eqb_refl].
Qed.

Lemma drop_while_all (p : ascii -> bool) (a b : str) :
  forallb p a = true -> drop_while p (a ++ b) = drop_while p b.
Proof.
  induction a as [| c a IH]; simpl; [reflexivity |].
  intros H. apply andb_true_iff in H. destruct H as [Hc Ha].
  rewrite Hc. auto.
Qed.

Lemma drop_while_stop (p : ascii -> bool) (c : ascii) (s : str) :
  p c = false -> drop_while p (c :: s) = c :: s.
Proof. intros H. simpl. rewrite H. reflexivity. Qed.

Lemma strip_padded (pad x : str) :
  forallb is_space pad = true -> strip x = x -> strip (pad ++ x) = x.
Proof.
  intros Hpad Hx. unfold strip, trim in *.
  rewrite drop_while_all by exact Hpad. exact Hx.
Qed.

Lemma existsb_app_false (p : ascii -> bool) (a b : str) :
  existsb p a = false -> existsb p b = false -> existsb p (a ++ b) = false.
Proof. intros Ha Hb. rewrite existsb_app, Ha, Hb. reflexivity. Qed.

(** Splitting a text without the separator gives the text itself. *)
Lemma split_none (sep : ascii) (x : str) :
  existsb (Ascii.eqb sep) x = false -> split sep x = [x].
Proof.
  induction x as [| c x IH]; simpl; [reflexivity |].
  intros H. apply orb_false_iff in H. destruct H as [Hc Hx].
  rewrite Ascii.eqb_sym, Hc, (IH Hx). reflexivity.
Qed.

(** Splitting at the first separator. *)
Lemma split_first (sep : ascii) (x rest : str) :
  existsb (Ascii.eqb sep) x = false ->
  split sep (x ++ sep :: rest) = x :: split sep rest.
Proof.
  induction x as [| c x IH]; simpl.
  - intros _. rewrite Ascii.eqb_refl. reflexivity.
  - intros H. apply orb_false_iff in H. destruct H as [Hc Hx].
    rewrite Ascii.eqb_sym, Hc, (IH Hx). reflexivity.
Qed.

Lemma split_nonempty (sep : ascii) (s : str) : split sep s <> [].
Proof.
  destruct s as [| c s]; simpl; [discriminate |].
  destruct (Ascii.eqb c sep); [discriminate |].
  destruct (split sep s); discriminate.
Qed.

End StringFacts.

(* ================================================================= *)
(** ** Properties: list-shaped fields of the edit forms *)

Section ListFields.

Import Admin Spec.

(** The comprehension keeps the trimmed entries that are not empty, in
    order. *)
Lemma parse_entries_filter (sep : ascii) (data : str) :
  parse_entries sep data = filter truthy (map strip (split sep data)).
Proof.
  unfold parse_entries. induction (split sep data) as [| x l IH]; simpl.
  - reflexivity.
  - destruct (truthy (strip x)); simpl; rewrite IH; reflexivity.
Qed.

Lemma clean_entry_inv (sep : ascii) (x : str) :
  clean_entry sep x = true ->
  truthy x = true /\ strip x = x /\ existsb (Ascii.eqb sep) x = false.
Proof.
  unfold clean_entry. rewrite !andb_true_iff, negb_true_iff, str_eqb_eq.
  tauto.
Qed.

(** Joining clean entries with the separator followed by a padding of
    white space, and parsing the text back; [pre] is white space before
    the first entry. *)
Lemma parse_join_padded (sep : ascii) (pad : str) (l : list str) :
  forallb is_space pad = true ->
  existsb (Ascii.eqb sep) pad = false ->
  forallb (clean_entry sep) l = true ->
  forall pre x,
    forallb is_space pre = true ->
    existsb (Ascii.eqb sep) pre = false ->
    clean_entry sep x = true ->
    parse_entries sep (pre ++ join (sep :: pad) (x :: l)) = x :: l.
Proof.
  intros Hpad Hsep. induction l as [| y l IH]; intros Hl pre x Hpre Hpre' Hx;
    destruct (clean_entry_inv _ _ Hx) as (Hne & Hstrip & Hno).
  - simpl join. unfold parse_entries.
    rewrite split_none by (apply existsb_app_false; assumption).
    cbn [filter map]. rewrite (strip_padded pre x Hpre Hstrip), Hne.
    cbn [map]. rewrite (strip_padded pre x Hpre Hstrip). reflexivity.
  - simpl in Hl. apply andb_true_iff in Hl. destruct Hl as [Hy Hl].
    change (join (sep :: pad) (x :: y :: l))
      with (x ++ (sep :: pad) ++ join (sep :: pad) (y :: l)).
    rewrite app_assoc.
    change ((sep :: pad) ++ join (sep :: pad) (y :: l))
      with (sep :: (pad ++ join (sep :: pad) (y :: l))).
    specialize (IH Hl pad y Hpad Hsep Hy). unfold parse_entries in *.
    rewrite split_first by (apply existsb_app_false; assumption).
    cbn [filter map]. rewrite (strip_padded pre x Hpre Hstrip), Hne.
    cbn [map]. rewrite (strip_padded pre x Hpre Hstrip).
    f_equal. exact IH.
Qed.

Lemma parse_join (sep : ascii) (pad : str) (l : list str) :
  forallb is_space pad = true ->
  existsb (Ascii.eqb sep) pad = false ->
  forallb (clean_entry sep) l = true ->
  parse_entries sep (join (sep :: pad) l) = l.
Proof.
  intros Hpad Hsep Hl. destruct l as [| x l]; [reflexivity |].
  simpl in Hl. apply andb_true_iff in Hl. destruct Hl as [Hx Hl].
  exact (parse_join_padded sep pad l Hpad Hsep Hl [] x eq_refl eq_refl Hx).
Qed.

(** Showing a stored list in the form and saving the form unchanged keeps
    the list. *)
Lemma store_prefill (sep : ascii) (pad : str) (l : list str) :
  forallb is_space pad = true ->
  existsb (Ascii.eqb sep) pad = false ->
  forallb (clean_entry sep) l = true ->
  store_entries sep (prefill_entries (sep :: pad) (Some l)) (Some l) = Some l.
Proof.
  intros Hpad Hsep Hl. destruct l as [| x l]; [reflexivity |].
  unfold prefill_entries, store_entries.
  rewrite (parse_join sep pad (x :: l) Hpad Hsep Hl).
  destruct (truthy (join (sep :: pad) (x :: l))); reflexivity.
Qed.

End ListFields.

(** C4 (amended).  For every ordered list of strings each of which is
    non-empty, carries no leading or trailing white space and contains no
    separator character (no comma for the tech field, no newline for the
    bullets field), joining the list with ", " (respectively a newline) for
    the edit form and parsing the text back (split on the separator, trim
    each entry, drop the entries empty after trimming) yields the original
    list in the original order, also through the guards of the prefill and
    save hooks; and on any edit text the parse drops exactly the entries
    that are empty after trimming and keeps the order of the rest. *)
Theorem list_field_round_trip (tech bullets : list str) :
  forallb (Spec.clean_entry Admin.comma) tech = true ->
  forallb (Spec.clean_entry Re.newline) bullets = true ->
  Admin.parse_entries Admin.comma (join ", " tech) = tech /\
  Admin.parse_entries Re.newline (join [Re.newline] bullets) = bullets /\
  Admin.store_entries Admin.comma
    (Admin.prefill_entries ", " (Some tech)) (Some tech) = Some tech /\
  Admin.store_entries Re.newline
    (Admin.prefill_entries [Re.newline] (Some bullets)) (Some bullets)
    = Some bullets /\
  (forall (sep : ascii) (text : str),
      Admin.parse_entries sep text =
      filter Admin.truthy (map strip (split sep text))).
Proof.
  intros Ht Hb.
  split; [exact (parse_join Admin.comma " " tech eq_refl eq_refl Ht) |].
  split; [exact (parse_join Re.newline [] bullets eq_refl eq_refl Hb) |].
  split; [exact (store_prefill Admin.comma " " tech eq_refl eq_refl Ht) |].
  split; [exact (store_prefill Re.newline [] bullets eq_refl eq_refl Hb) |].
  exact parse_entries_filter.
Qed.

Lemma list_field_round_trip_witness :
  Admin.parse_entries Admin.comma
    (join ", " ["React"; "Type Script"; "Node.js"])
  = ["React"; "Type Script"; "Node.js"] /\
  Admin.parse_entries Re.newline
    (join [Re.newline] ["Built the storefront, twice"; "Led a team"])
  = ["Built the storefront, twice"; "Led a team"].
Proof.
  destruct (list_field_round_trip ["React"; "Type Script"; "Node.js"]
              ["Built the storefront, twice"; "Led a team"]
              eq_refl eq_refl) as (Ht & Hb & _).
  split; [exact Ht | exact Hb].
Defined.

(** C4 as stated fails: the entry " a" is not empty after trimming and
    holds no comma, and the round trip returns "a" in its place. *)
Lemma list_field_round_trip_untrimmed :
  ~ (forall l : list str,
        forallb (Spec.nonblank_entry Admin.comma) l = true ->
        Admin.parse_entries Admin.comma (join ", " l) = l).
Proof.
  intros H. specialize (H [" a"] eq_refl). vm_compute in H. discriminate H.
Qed.

(* ================================================================= *)
(** ** Properties: the slug of a project *)

Section Slug.

Import Admin Spec.

Lemma drop_while_idem (p : ascii -> bool) (s : str) :
  drop_while p (drop_while p s) = drop_while p s.
Proof.
  induction s as [| c s IH]; simpl; [reflexivity |].
  destruct (p c) eqn:E; [exact IH |]. simpl. rewrite E. reflexivity.
Qed.

Lemma drop_while_keep_last (p : ascii -> bool) (a : str) (h : ascii) :
  p h = false -> drop_while p (a ++ [h]) = drop_while p a ++ [h].
Proof.
  intros Hh. induction a as [| c a IH]; simpl.
  - rewrite Hh. reflexivity.
  - destruct (p c); [exact IH | reflexivity].
Qed.

Lemma drop_while_end_cons (p : ascii -> bool) (h : ascii) (r : str) :
  p h = false -> drop_while_end p (h :: r) = h :: drop_while_end p r.
Proof.
  intros Hh. unfold drop_while_end. simpl rev.
  rewrite drop_while_keep_last by exact Hh.
  rewrite rev_app_distr. reflexivity.
Qed.

Lemma drop_while_end_idem (p : ascii -> bool) (s : str) :
  drop_while_end p (drop_while_end p s) = drop_while_end p s.
Proof.
  unfold drop_while_end. rewrite rev_involutive, drop_while_idem.
  reflexivity.
Qed.

Lemma drop_while_head (p : ascii -> bool) (s : str) :
  drop_while p s = [] \/
  exists h r, drop_while p s = h :: r /\ p h = false.
Proof.
  induction s as [| c s IH]; simpl; [left; reflexivity |].
  destruct (p c) eqn:E; [exact IH |]. right. exists c, s. auto.
Qed.

Lemma trim_idem (p : ascii -> bool) (s : str) :
  trim p (trim p s) = trim p s.
Proof.
  unfold trim. destruct (drop_while_head p s) as [E | (h & r & E & Hh)];
    rewrite E.
  - reflexivity.
  - rewrite (drop_while_end_cons p h r Hh). rewrite drop_while_stop by exact Hh.
    rewrite <- (drop_while_end_cons p h r Hh). apply drop_while_end_idem.
Qed.

Lemma trim_fixed (p : ascii -> bool) (s : str) :
  match s with c :: _ => p c | [] => false end = false ->
  match rev s with c :: _ => p c | [] => false end = false ->
  trim p s = s.
Proof.
  intros Hhead Hlast. unfold trim, drop_while_end.
  assert (E : drop_while p s = s).
  { destruct s as [| c s]; [reflexivity |]. simpl. rewrite Hhead.
    reflexivity. }
  rewrite E.
  assert (E' : drop_while p (rev s) = rev s).
  { destruct (rev s) as [| c r]; [reflexivity |]. simpl. rewrite Hlast.
    reflexivity. }
  rewrite E'. apply rev_involutive.
Qed.

(** What survives a [drop_while] is a suffix; a property of all the
    characters is kept. *)
Lemma forallb_drop_while (q p : ascii -> bool) (s : str) :
  forallb q s = true -> forallb q (drop_while p s) = true.
Proof.
  induction s as [| c s IH]; simpl; [reflexivity |].
  intros H. destruct (p c).
  - apply andb_true_iff in H. apply IH, H.
  - exact H.
Qed.

Lemma forallb_rev (q : ascii -> bool) (s : str) :
  forallb q (rev s) = forallb q s.
Proof.
  induction s as [| c s IH]; simpl; [reflexivity |].
  rewrite forallb_app, IH. simpl. rewrite andb_true_r. apply andb_comm.
Qed.

Lemma forallb_trim (q p : ascii -> bool) (s : str) :
  forallb q s = true -> forallb q (trim p s) = true.
Proof.
  intros H. unfold trim, drop_while_end.
  rewrite forallb_rev. apply forallb_drop_while.
  rewrite forallb_rev. apply forallb_drop_while. exact H.
Qed.

Lemma drop_while_suffix (p : ascii -> bool) (s : str) :
  exists pre, s = pre ++ drop_while p s.
Proof.
  induction s as [| c s [pre E]]; simpl; [exists []; reflexivity |].
  destruct (p c).
  - exists (c :: pre). simpl. f_equal. exact E.
  - exists []. reflexivity.
Qed.

Lemma drop_while_end_prefix (p : ascii -> bool) (s : str) :
  exists suf, s = drop_while_end p s ++ suf.
Proof.
  unfold drop_while_end. destruct (drop_while_suffix p (rev s)) as [pre E].
  exists (rev pre). rewrite <- rev_app_distr, <- E. symmetry.
  apply rev_involutive.
Qed.

Lemma tidy_weaken (b : bool) (s : str) :
  tidy b s = true -> tidy false s = true.
Proof.
  destruct s as [| c s]; simpl; [reflexivity |].
  rewrite !andb_true_iff. tauto.
Qed.

Lemma tidy_suffix (b : bool) (a s : str) :
  tidy b (a ++ s) = true -> tidy false s = true.
Proof.
  revert b. induction a as [| c a IH]; intros b; simpl.
  - apply tidy_weaken.
  - rewrite !andb_true_iff. intros (_ & H). exact (IH _ H).
Qed.

Lemma tidy_prefix (b : bool) (a s : str) :
  tidy b (a ++ s) = true -> tidy b a = true.
Proof.
  revert b. induction a as [| c a IH]; intros b; simpl; [reflexivity |].
  rewrite !andb_true_iff. intros (H1 & H). split; [exact H1 | exact (IH _ H)].
Qed.

Lemma tidy_trim (p : ascii -> bool) (b : bool) (s : str) :
  tidy b s = true -> tidy false (trim p s) = true.
Proof.
  intros H. unfold trim.
  destruct (drop_while_suffix p s) as [pre E]. rewrite E in H.
  apply tidy_suffix in H.
  destruct (drop_while_end_prefix p (drop_while p s)) as [suf E'].
  rewrite E' in H. exact (tidy_prefix _ _ _ H).
Qed.

(** *** The two substitutions of [generate_slug] *)

Lemma sub_junk_filter (s : str) :
  Re.sub Re.slug_junk s = filter (fun c => negb (Re.is_slug_junk c)) s.
Proof.
  unfold Re.sub. induction s as [| c s IH]; simpl; [reflexivity |].
  destruct (Re.is_slug_junk c); simpl; rewrite IH; reflexivity.
Qed.

Lemma forallb_filter (q p : ascii -> bool) (s : str) :
  forallb q s = true -> forallb q (filter p s) = true.
Proof.
  induction s as [| c s IH]; simpl; [reflexivity |].
  rewrite andb_true_iff. intros [Hc Hs].
  destruct (p c); simpl; [rewrite Hc |]; auto.
Qed.

Lemma forallb_filter_self (p : ascii -> bool) (s : str) :
  forallb p (filter p s) = true.
Proof.
  induction s as [| c s IH]; simpl; [reflexivity |].
  destruct (p c) eqn:E; simpl; [rewrite E |]; auto.
Qed.

Lemma filter_fixed (p : ascii -> bool) (s : str) :
  forallb p s = true -> filter p s = s.
Proof.
  induction s as [| c s IH]; simpl; [reflexivity |].
  rewrite andb_true_iff. intros [Hc Hs]. rewrite Hc, (IH Hs). reflexivity.
Qed.

Lemma sub_gap_forallb (q : ascii -> bool) (s : str) :
  q Re.hyphen = true -> forallb q s = true ->
  forall k, forallb q (Re.sub_from Re.gap_run k s) = true.
Proof.
  intros Hq. induction s as [| c s IH]; simpl; [reflexivity |].
  rewrite andb_true_iff. intros [Hc Hs] k.
  destruct k as [| k]; [| exact (IH Hs k)].
  destruct (Re.is_gap c); simpl.
  - rewrite Hq. exact (IH Hs _).
  - rewrite Hc. exact (IH Hs 0).
Qed.

Lemma is_gap_space (c : ascii) :
  Re.is_gap c = false -> is_space c = false /\ Ascii.eqb c Re.hyphen = false.
Proof. unfold Re.is_gap. rewrite orb_false_iff. tauto. Qed.

(** After the substitution no white space is left and hyphens are
    single. *)
Lemma sub_gap_tidy (s : str) :
  tidy false (Re.sub_from Re.gap_run 0 s) = true /\
  tidy true
    (Re.sub_from Re.gap_run (length (Re.take_while Re.is_gap s)) s) = true.
Proof.
  induction s as [| c s [P Q]]; simpl; [split; reflexivity |].
  destruct (Re.is_gap c) eqn:G; simpl.
  - rewrite Q. split; reflexivity.
  - destruct (is_gap_space c G) as [Hs Hh]. rewrite Hs, Hh, P.
    split; reflexivity.
Qed.

Lemma sub_gap_fixed (s : str) (b : bool) :
  tidy b s = true -> Re.sub Re.gap_run s = s.
Proof.
  unfold Re.sub. revert b. induction s as [| c s IH]; intros b; simpl;
    [reflexivity |].
  rewrite !andb_true_iff, !negb_true_iff. intros ((Hs & _) & Ht).
  unfold Re.is_gap at 1. rewrite Hs, orb_false_r.
  destruct (Ascii.eqb c Re.hyphen) eqn:Hc.
  - apply Ascii.eqb_eq in Hc. subst c.
    assert (E : Re.take_while Re.is_gap s = []).
    { destruct s as [| d s]; [reflexivity |]. simpl in Ht |- *.
      rewrite !andb_true_iff, !negb_true_iff in Ht.
      destruct Ht as ((Hd & Hd') & _). simpl in Hd'.
      unfold Re.is_gap. rewrite Hd, Hd'. reflexivity. }
    rewrite E. simpl. f_equal. exact (IH _ Ht).
  - f_equal. exact (IH _ Ht).
Qed.

Lemma to_lower_not_upper (c : ascii) : is_upper (to_lower c) = false.
Proof. destruct c as [[] [] [] [] [] [] [] []]; reflexivity. Qed.

Lemma lower_no_upper (s : str) :
  forallb (fun c => negb (is_upper c)) (lower s) = true.
Proof.
  induction s as [| c s IH]; simpl; [reflexivity |].
  rewrite to_lower_not_upper, IH. reflexivity.
Qed.

Lemma lower_fixed (s : str) :
  forallb (fun c => negb (is_upper c)) s = true -> lower s = s.
Proof.
  induction s as [| c s IH]; simpl; [reflexivity |].
  rewrite andb_true_iff, negb_true_iff. intros [Hc Hs].
  unfold to_lower at 1. rewrite Hc, (IH Hs). reflexivity.
Qed.

(** A text of small letters, digits, underscores and single inner
    hyphens is its own slug. *)
Lemma generate_slug_fixed (s : str) :
  forallb (fun c => negb (is_upper c)) s = true ->
  forallb (fun c => negb (Re.is_slug_junk c)) s = true ->
  tidy false s = true ->
  trim (Ascii.eqb Re.hyphen) s = s ->
  generate_slug s = s.
Proof.
  intros Hu Hj Ht Hd. unfold generate_slug, strip_char.
  rewrite (lower_fixed s Hu), sub_junk_filter, (filter_fixed _ s Hj),
    (sub_gap_fixed s false Ht).
  exact Hd.
Qed.

Lemma generate_slug_idem (t : str) :
  generate_slug (generate_slug t) = generate_slug t.
Proof.
  apply generate_slug_fixed; unfold generate_slug, strip_char.
  - apply forallb_trim, sub_gap_forallb; [reflexivity |].
    rewrite sub_junk_filter. apply forallb_filter, lower_no_upper.
  - apply forallb_trim, sub_gap_forallb; [reflexivity |].
    rewrite sub_junk_filter. apply forallb_filter_self.
  - apply tidy_trim with (b := false). apply sub_gap_tidy.
  - apply trim_idem.
Qed.

Lemma slug_char_classes (c : ascii) :
  Re.is_slug_char c = true ->
  negb (is_upper c) = true /\ negb (Re.is_slug_junk c) = true.
Proof.
  destruct c as [[] [] [] [] [] [] [] []]; vm_compute; intros H;
    (discriminate H || (split; reflexivity)).
Qed.

Lemma forallb_impl (p q : ascii -> bool) (s : str) :
  (forall c, p c = true -> q c = true) ->
  forallb p s = true -> forallb q s = true.
Proof.
  intros Hpq. induction s as [| c s IH]; simpl; [reflexivity |].
  rewrite !andb_true_iff. intros [Hc Hs]. auto.
Qed.

Lemma canonical_slug_fixed (s : str) :
  canonical_slug s = true -> generate_slug s = s.
Proof.
  unfold canonical_slug. rewrite !andb_true_iff, negb_true_iff.
  intros (((Hne & Hc) & Ht) & Hl).
  apply generate_slug_fixed.
  - revert Hc. apply forallb_impl. intros c H.
    apply (slug_char_classes c H).
  - revert Hc. apply forallb_impl. intros c H.
    apply (slug_char_classes c H).
  - exact (tidy_weaken _ _ Ht).
  - apply trim_fixed.
    + destruct s as [| c s]; [reflexivity |]. simpl in Ht.
      rewrite !andb_true_iff, negb_true_iff in Ht.
      destruct Ht as ((_ & Hh) & _). simpl in Hh.
      apply negb_true_iff in Hh. rewrite Ascii.eqb_sym. exact Hh.
    + exact Hl.
Qed.

Lemma take_while_all (p : ascii -> bool) (s : str) :
  forallb p s = true -> Re.take_while p s = s.
Proof.
  induction s as [| c s IH]; simpl; [reflexivity |].
  rewrite andb_true_iff. intros [Hc Hs]. rewrite Hc, (IH Hs). reflexivity.
Qed.

Lemma canonical_slug_valid (s : str) :
  canonical_slug s = true -> Re.match_slug_pattern s = true.
Proof.
  unfold canonical_slug, Re.match_slug_pattern.
  rewrite !andb_true_iff. intros (((Hne & Hc) & _) & _).
  rewrite (take_while_all _ s Hc), skipn_all.
  destruct s; [discriminate Hne | split; reflexivity].
Qed.

End Slug.

(** C5 (amended).  The slug derivation maps the title
    "Hello, World! 2024" to "hello-world-2024"; deriving again from a
    derived slug returns it unchanged; and a valid slug is returned
    unchanged when its hyphens are single and stand between other
    characters. *)
Theorem generate_slug_idempotent (title slug : str) :
  Spec.canonical_slug slug = true ->
  Admin.generate_slug "Hello, World! 2024" = "hello-world-2024" /\
  Admin.generate_slug (Admin.generate_slug title) = Admin.generate_slug title /\
  Re.match_slug_pattern slug = true /\
  Admin.generate_slug slug = slug.
Proof.
  intros H. split; [reflexivity |]. split; [apply generate_slug_idem |].
  split; [exact (canonical_slug_valid slug H)
         | exact (canonical_slug_fixed slug H)].
Qed.

Lemma generate_slug_idempotent_witness :
  Admin.generate_slug "Hello, World! 2024" = "hello-world-2024" /\
  Admin.generate_slug (Admin.generate_slug "  My -- Project_2 ")
  = Admin.generate_slug "  My -- Project_2 " /\
  Re.match_slug_pattern "hello-world-2024" = true /\
  Admin.generate_slug "hello-world-2024" = "hello-world-2024".
Proof.
  apply (generate_slug_idempotent "  My -- Project_2 " "hello-world-2024").
  reflexivity.
Defined.

(** C5 as stated fails: "a--b" is a valid slug, and deriving from it gives
    "a-b". *)
Lemma generate_slug_changes_valid_slug :
  ~ (forall slug : str,
        Re.match_slug_pattern slug = true ->
        Admin.generate_slug slug = slug).
Proof.
  intros H. specialize (H "a--b" eq_refl). vm_compute in H. discriminate H.
Qed.

(** C6 fails on the code.  The title "my_project" is not empty and its
    derived slug "my_project" keeps the underscore, which the slug pattern
    of [ProjectSchema.validate_slug_format] rejects; the title "!!!" is
    not empty and its derived slug is empty. *)
Theorem generate_slug_breaks_slug_pattern :
  Admin.generate_slug "my_project" = "my_project" /\
  Schemas.validate_slug_format (Some (Admin.generate_slug "my_project"))
  = Raised "Slug must contain only lowercase letters, numbers, and hyphens" /\
  Admin.resolve_slug None (Some "my_project") = Some "my_project" /\
  Admin.generate_slug "!!!" = [] /\
  Re.match_slug_pattern (Admin.generate_slug "!!!") = false.
Proof. repeat split. Qed.

(* ================================================================= *)
(** ** Properties: the social links of the site metadata *)

Section SocialLinks.

Import Schemas Spec.

(** The three URL tests of the loop, as one condition. *)
Lemma domain_ok_tests (l : SocialLink) :
  domain_ok l =
  negb (str_eqb (platform_key l) "github"
          && negb (contains "github.com" (get (url l) []))
        || str_eqb (platform_key l) "linkedin"
             && negb (contains "linkedin.com" (get (url l) []))
        || str_eqb (platform_key l) "twitter"
             && negb (existsb (fun d => contains d (get (url l) []))
                              ["twitter.com"; "x.com"])).
Proof.
  unfold domain_ok, required_domains.
  destruct (str_eqb (platform_key l) "github") eqn:E1.
  { apply str_eqb_eq in E1. rewrite E1. simpl existsb.
    change (str_eqb "github" "linkedin") with false.
    change (str_eqb "github" "twitter") with false.
    rewrite !orb_false_r. simpl. rewrite negb_involutive. reflexivity. }
  destruct (str_eqb (platform_key l) "linkedin") eqn:E2.
  { apply str_eqb_eq in E2. rewrite E2. simpl existsb.
    change (str_eqb "linkedin" "twitter") with false.
    rewrite !orb_false_r. simpl. rewrite negb_involutive. reflexivity. }
  destruct (str_eqb (platform_key l) "twitter") eqn:E3.
  { simpl. rewrite negb_involutive. reflexivity. }
  reflexivity.
Qed.

Lemma check_links_step (seen : list str) (l : SocialLink)
      (rest : list SocialLink) :
  check_links seen (l :: rest) =
  if mem (platform_key l) seen then
    Raised "Duplicate social media platform found"
  else match domain_violation l with
       | m :: _ => Raised m
       | [] => check_links (seen ++ [platform_key l]) rest
       end.
Proof.
  unfold domain_violation. rewrite domain_ok_tests.
  cbn [check_links]. fold (platform_key l).
  generalize (platform_key l) as k. generalize (get (url l) []) as u.
  intros u k.
  destruct (mem k seen); [reflexivity |].
  destruct (str_eqb k "github") eqn:E1.
  { apply str_eqb_eq in E1. subst k.
    destruct (contains "github.com" u); reflexivity. }
  destruct (str_eqb k "linkedin") eqn:E2.
  { apply str_eqb_eq in E2. subst k.
    destruct (contains "linkedin.com" u); reflexivity. }
  destruct (str_eqb k "twitter") eqn:E3.
  { destruct (existsb _ _); reflexivity. }
  reflexivity.
Qed.

Lemma domain_violation_none (l : SocialLink) :
  domain_violation l = [] <-> domain_ok l = true.
Proof.
  unfold domain_violation. destruct (domain_ok l).
  - tauto.
  - split; [| discriminate].
    destruct (str_eqb _ _); [discriminate |].
    destruct (str_eqb _ _); discriminate.
Qed.

(** The loop raises the first violation it meets. *)
Lemma check_links_first (links : list SocialLink) (seen : list str) :
  check_links seen links = first_of (link_violations seen links).
Proof.
  revert seen. induction links as [| l rest IH]; intros seen;
    [reflexivity |].
  rewrite check_links_step. cbn [link_violations].
  destruct (mem (platform_key l) seen); [reflexivity |].
  destruct (domain_violation l); [apply IH | reflexivity].
Qed.

(** The loop passes exactly when the platform names are new and distinct
    and every known platform has its domain. *)
Lemma check_links_passed (links : list SocialLink) (seen : list str) :
  check_links seen links = Passed <->
  (forall k, In k (map platform_key links) -> ~ In k seen) /\
  NoDup (map platform_key links) /\
  Forall (fun l => domain_ok l = true) links.
Proof.
  revert seen. induction links as [| l rest IH]; intros seen.
  - simpl. split; [| reflexivity]. intros _.
    split; [intros k [] |]. split; constructor.
  - rewrite check_links_step. cbn [map].
    destruct (mem (platform_key l) seen) eqn:M.
    + split; [discriminate |]. intros (Hnew & _). exfalso.
      apply (Hnew (platform_key l)); [left; reflexivity |].
      apply mem_In. exact M.
    + assert (Hl : ~ In (platform_key l) seen).
      { intros Hin. apply mem_In in Hin. congruence. }
      destruct (domain_violation l) as [| m ms] eqn:D.
      * apply domain_violation_none in D. rewrite IH. split.
        -- intros (Hnew & Hnd & Hok). split; [| split].
           ++ intros k [<- | Hk]; [exact Hl |].
              intros Hin. apply (Hnew k Hk). apply in_or_app. left. exact Hin.
           ++ constructor; [| exact Hnd]. intros Hin.
              apply (Hnew _ Hin). apply in_or_app. right. left. reflexivity.
           ++ constructor; assumption.
        -- intros (Hnew & Hnd & Hok). inversion Hnd; subst.
           inversion Hok; subst. split; [| split]; try assumption.
           intros k Hk Hin. apply in_app_or in Hin.
           destruct Hin as [Hin | [<- | []]].
           ++ apply (Hnew k); [right; exact Hk | exact Hin].
           ++ contradiction.
      * split; [discriminate |]. intros (_ & _ & Hok). inversion Hok; subst.
        apply domain_violation_none in H1. congruence.
Qed.

End SocialLinks.

(** C9.  A social-links list passes the list-level rule exactly when its
    platform names are pairwise distinct compared case-insensitively and
    every entry whose platform is github, linkedin or twitter has a URL
    containing github.com, linkedin.com, or one of twitter.com and x.com;
    any other list is rejected.  Two entries with the platforms "GitHub"
    and "github" are rejected as a duplicate. *)
Theorem validate_social_links_rule :
  (forall links : list Schemas.SocialLink,
      Schemas.validate_social_links (Some links) = Passed <->
      NoDup (map Spec.platform_key links) /\
      Forall (fun l => Spec.domain_ok l = true) links) /\
  (forall links : list Schemas.SocialLink,
      is_raised (Schemas.validate_social_links (Some links)) = false <->
      Schemas.validate_social_links (Some links) = Passed) /\
  (forall url1 icon1 url2 icon2 : option str,
      is_raised
        (Schemas.validate_social_links
           (Some [Schemas.mkLink (Some "GitHub") url1 icon1;
                  Schemas.mkLink (Some "github") url2 icon2])) = true) /\
  Schemas.validate_social_links
    (Some [Schemas.mkLink (Some "GitHub") (Some "https://github.com/a")
             (Some "github");
           Schemas.mkLink (Some "github") (Some "https://github.com/b")
             (Some "github")])
  = Raised "Duplicate social media platform found".
Proof.
  assert (Rule : forall links : list Schemas.SocialLink,
             Schemas.validate_social_links (Some links) = Passed <->
             NoDup (map Spec.platform_key links) /\
             Forall (fun l => Spec.domain_ok l = true) links).
  { intros links. destruct links as [| l rest].
    - simpl. split; [| reflexivity]. intros _. split; constructor.
    - unfold Schemas.validate_social_links. rewrite check_links_passed.
      split; [tauto |]. intros [H1 H2].
      split; [intros k _ [] | split; assumption]. }
  split; [exact Rule |]. split; [| split; [| reflexivity]].
  - intros links. destruct (Schemas.validate_social_links (Some links));
      simpl; split; congruence.
  - intros url1 icon1 url2 icon2.
    destruct (Schemas.validate_social_links _) eqn:E; [| reflexivity].
    apply Rule in E. destruct E as [Hnd _]. exfalso.
    inversion Hnd as [| k ks Hin _]; subst. apply Hin. left. reflexivity.
Qed.

(* ================================================================= *)
(** ** Properties: what a validator reports *)

(** C2 (amended).  A schema-level validator stops at the first rule it
    finds violated and reports that violation alone: the result of the
    Experience date check and of the social-links check is the first of
    the violations of the record, in the order the rules are checked (for
    dates the end-date rule before the future-start rule; for links entry
    by entry, the duplicate rule before the domain rule), and a record
    without a violation passes. *)
Theorem validators_report_first_violation :
  (forall (today : date) (start_date end_date : option date),
      Schemas.validate_dates today start_date end_date =
      Spec.first_of (Spec.date_violations today start_date end_date)) /\
  (forall links : list Schemas.SocialLink,
      Schemas.validate_social_links (Some links) =
      Spec.first_of (Spec.link_violations [] links)).
Proof.
  split.
  - intros today [s |] [e |]; unfold Schemas.validate_dates,
      Spec.date_violations, when, and_then; simpl;
      try destruct (date_leb e s); try destruct (date_ltb today s);
      reflexivity.
  - intros [| l rest]; [reflexivity |].
    unfold Schemas.validate_social_links. apply check_links_first.
Qed.

(** C2 as stated fails: an Experience whose end date 2029-01-01 is not
    after its start date 2030-01-01, loaded on 2026-11-03, violates both
    date rules and only the end-date message is reported; a social-links
    list with a duplicate "github" entry whose URL also lacks github.com
    gets the duplicate message alone. *)
Lemma validators_drop_later_violations :
  ~ (forall m : str,
        In m (Spec.date_violations (mkdate 2026 11 3)
                (Some (mkdate 2030 1 1)) (Some (mkdate 2029 1 1))) ->
        In m (Spec.reported
                (Schemas.validate_dates (mkdate 2026 11 3)
                   (Some (mkdate 2030 1 1)) (Some (mkdate 2029 1 1))))) /\
  ~ (forall m : str,
        In m (Spec.link_violations []
                [Schemas.mkLink (Some "GitHub") (Some "https://github.com/a")
                   (Some "github");
                 Schemas.mkLink (Some "github") (Some "https://example.com/b")
                   (Some "github")]) ->
        In m (Spec.reported
                (Schemas.validate_social_links
                   (Some
                      [Schemas.mkLink (Some "GitHub")
                         (Some "https://github.com/a") (Some "github");
                       Schemas.mkLink (Some "github")
                         (Some "https://example.com/b") (Some "github")])))).
Proof.
  split.
  - intros H. specialize (H "Start date cannot be in the future").
    vm_compute in H. destruct H as [E | []]; [tauto | discriminate E].
  - intros H. specialize (H "GitHub URL must contain github.com").
    vm_compute in H. destruct H as [E | []]; [tauto | discriminate E].
Qed.

(* ================================================================= *)
(** ** Properties: the message of a contact submission *)

(** C8.  A message whose raw length is at least 10 characters and whose
    length after trimming is below 10 is rejected by the schema-level rule,
    with a message of its own, while the raw-length rule of the field does
    not object to its minimum: the field validator accepts the message
    whenever it is within the maximum of 5000.  The message "   short   "
    (11 characters, 5 after trimming) is such a message. *)
Theorem trimmed_message_too_short (message : str) :
  (10 <= length message)%nat ->
  (length (strip message) < 10)%nat ->
  Schemas.validate_message_content (Some message)
  = Raised "Message must be at least 10 characters long" /\
  Schemas.message_field_ok message = (length message <=? 5000)%nat.
Proof.
  intros Hraw Htrim. split.
  - unfold Schemas.validate_message_content, when.
    apply Nat.ltb_lt in Htrim. rewrite Htrim. reflexivity.
  - unfold Schemas.message_field_ok, Schemas.Length.
    apply Nat.leb_le in Hraw. rewrite Hraw. reflexivity.
Qed.

Lemma trimmed_message_too_short_witness :
  Schemas.validate_message_content (Some "   short   ")
  = Raised "Message must be at least 10 characters long" /\
  Schemas.message_field_ok "   short   " = true.
Proof.
  destruct (trimmed_message_too_short "   short   ") as [Hv Hf].
  - simpl. lia.
  - vm_compute. lia.
  - split; [exact Hv | exact Hf].
Defined.

(* ================================================================= *)
(** ** Properties: list fields in the external representation *)

(** C7 fails on the code.  The list fields are declared with [missing=[]],
    the default for loading, and with no default for dumping: for each of
    [Project.tech], [Experience.bullets], [Experience.tech] and
    [SiteMeta.social_links] a stored [None] is serialized as null, and an
    absent attribute is left out of the output; neither becomes the empty
    sequence. *)
Theorem null_list_serializes_as_null :
  let dumped := fun (f : Schemas.ListField) =>
                  Schemas.serialize_list f Schemas.JString Schemas.Null in
  let links := Schemas.serialize_list Schemas.site_meta_social_links
                 Schemas.dump_link in
  dumped Schemas.project_tech = Some Schemas.JNull /\
  dumped Schemas.experience_bullets = Some Schemas.JNull /\
  dumped Schemas.experience_tech = Some Schemas.JNull /\
  links Schemas.Null = Some Schemas.JNull /\
  dumped Schemas.project_tech <> Some (Schemas.JArray []) /\
  Schemas.serialize_list Schemas.project_tech Schemas.JString Schemas.Absent
  = None /\
  links Schemas.Absent = None.
Proof.
  cbv zeta. repeat split. discriminate.
Qed.

(* ================================================================= *)
(** ** Properties: the field-name transforms *)

Section FieldNames.

Import Schemas Spec.

(** *** Scanning *)

Lemma sub_miss (m : Re.matcher) (c : ascii) (t : str) :
  m (c :: t) = None ->
  Re.sub_from m 0 (c :: t) = c :: Re.sub_from m 0 t.
Proof. intros H. simpl. rewrite H. reflexivity. Qed.

Lemma sub_hit (m : Re.matcher) (c : ascii) (t repl : str) (n : nat) :
  m (c :: t) = Some (repl, n) ->
  Re.sub_from m 0 (c :: t) = repl ++ Re.sub_from m (pred n) t.
Proof. intros H. simpl. rewrite H. reflexivity. Qed.

Lemma sub_skip (m : Re.matcher) (a x : str) :
  Re.sub_from m (length a) (a ++ x) = Re.sub_from m 0 x.
Proof.
  induction a as [| c a IH]; simpl; [| exact IH].
  destruct x; reflexivity.
Qed.

(** *** Characters *)

Lemma lower_facts (c : ascii) :
  is_lower c = true ->
  is_upper c = false /\ is_digit c = false /\
  Ascii.eqb c Re.newline = false /\ Ascii.eqb c Re.underscore = false /\
  to_lower c = c /\
  is_upper (to_upper c) = true /\ to_lower (to_upper c) = c.
Proof.
  destruct c as [[] [] [] [] [] [] [] []]; vm_compute; intros H;
    (discriminate H || (repeat split; reflexivity)).
Qed.

Lemma upper_facts (c : ascii) :
  is_upper c = true ->
  is_lower c = false /\ is_digit c = false /\
  Ascii.eqb c Re.newline = false.
Proof.
  destruct c as [[] [] [] [] [] [] [] []]; vm_compute; intros H;
    (discriminate H || (repeat split; reflexivity)).
Qed.

Lemma lower_word (r : str) : forallb is_lower r = true -> lower r = r.
Proof.
  induction r as [| c r IH]; simpl; [reflexivity |].
  rewrite andb_true_iff. intros [Hc Hr].
  destruct (lower_facts c Hc) as (_ & _ & _ & _ & E & _).
  rewrite E, (IH Hr). reflexivity.
Qed.


Lemma word_inv (w : str) :
  lowercase_word w = true ->
  exists u r, w = u :: r /\ is_lower u = true /\ forallb is_lower r = true.
Proof.
  unfold lowercase_word. destruct w as [| u r]; [discriminate |].
  simpl. rewrite andb_true_iff. intros [Hu Hr]. exists u, r. auto.
Qed.

Lemma capitalize_word (u : ascii) (r : str) :
  forallb is_lower r = true -> capitalize (u :: r) = to_upper u :: r.
Proof. intros Hr. simpl. rewrite (lower_word r Hr). reflexivity. Qed.

(** The capitalized words do not begin with a small letter. *)
Lemma caps_head (ws : list str) :
  forallb lowercase_word ws = true ->
  Re.take_while is_lower (concat (map capitalize ws)) = [].
Proof.
  destruct ws as [| w ws]; [reflexivity |]. simpl.
  rewrite andb_true_iff. intros [Hw _].
  destruct (word_inv w Hw) as (u & r & -> & Hu & Hr). simpl.
  destruct (lower_facts u Hu) as (_ & _ & _ & _ & _ & HU & _).
  destruct (upper_facts _ HU) as (E & _). rewrite E. reflexivity.
Qed.

Lemma take_run (r x : str) :
  forallb is_lower r = true -> Re.take_while is_lower x = [] ->
  Re.take_while is_lower (r ++ x) = r.
Proof.
  intros Hr Hx. induction r as [| c r IH]; simpl; [exact Hx |].
  simpl in Hr. apply andb_true_iff in Hr. destruct Hr as [Hc Hr].
  rewrite Hc, (IH Hr). reflexivity.
Qed.

(** *** The first substitution: ["(.)([A-Z][a-z]+)"] *)

Lemma m1_second (c d : ascii) (t : str) :
  is_upper d = false -> Re.any_then_capitalized (c :: d :: t) = None.
Proof.
  intros Hd. unfold Re.any_then_capitalized. destruct t; [reflexivity |].
  rewrite Hd, andb_false_r. reflexivity.
Qed.

Lemma m1_third (c d : ascii) (x : str) :
  Re.take_while is_lower x = [] ->
  Re.any_then_capitalized (c :: d :: x) = None.
Proof.
  intros Hx. unfold Re.any_then_capitalized.
  destruct x as [| l x]; [reflexivity |].
  simpl in Hx. destruct (is_lower l); [discriminate Hx |].
  rewrite andb_false_r. reflexivity.
Qed.

Lemma m1_match (c u l : ascii) (r x : str) :
  Ascii.eqb c Re.newline = false -> is_upper u = true ->
  forallb is_lower (l :: r) = true -> Re.take_while is_lower x = [] ->
  Re.any_then_capitalized (c :: u :: (l :: r) ++ x) =
  Some (c :: Re.underscore :: u :: l :: r, 2 + length (l :: r)).
Proof.
  intros Hc Hu Hr Hx. unfold Re.any_then_capitalized. cbn [app].
  change (l :: r ++ x) with ((l :: r) ++ x).
  rewrite (take_run (l :: r) x Hr Hx).
  simpl in Hr. apply andb_true_iff in Hr. destruct Hr as [Hl _].
  rewrite Hc, Hu, Hl. reflexivity.
Qed.

Lemma letter_not_newline (c : ascii) :
  is_lower c || is_upper c = true -> Ascii.eqb c Re.newline = false.
Proof.
  intros H. apply orb_true_iff in H. destruct H as [H | H].
  - apply (lower_facts c H).
  - apply (upper_facts c H).
Qed.

(** A run of small letters before a text is copied up to its last
    letter. *)
Lemma m1_run (x y : str) :
  (forall c, is_lower c || is_upper c = true ->
             Re.sub_from Re.any_then_capitalized 0 (c :: x) = c :: y) ->
  forall r, r <> [] -> forallb is_lower r = true ->
            Re.sub_from Re.any_then_capitalized 0 (r ++ x) = r ++ y.
Proof.
  intros Hx r. induction r as [| c r IH]; [congruence |].
  intros _ Hr. simpl in Hr. apply andb_true_iff in Hr. destruct Hr as [Hc Hr].
  destruct r as [| d r].
  - apply Hx. rewrite Hc. reflexivity.
  - simpl in Hr. assert (Hd : is_lower d = true)
      by (apply andb_true_iff in Hr; tauto).
    change ((c :: d :: r) ++ x) with (c :: d :: (r ++ x)).
    rewrite sub_miss by (apply m1_second; apply (lower_facts d Hd)).
    change ((c :: d :: r) ++ y) with (c :: ((d :: r) ++ y)).
    f_equal. apply IH; [discriminate | exact Hr].
Qed.

Lemma single_letter_inv (u : ascii) (r : str) :
  single_letter (u :: r) = true -> r = [].
Proof. destruct r; [reflexivity | discriminate]. Qed.

Lemma long_inv (u : ascii) (r : str) :
  single_letter (u :: r) = false -> r <> [].
Proof. destruct r; [discriminate | discriminate]. Qed.

Lemma first_substitution (ws : list str) :
  forallb lowercase_word ws = true ->
  Re.sub_from Re.any_then_capitalized 0 (concat (map capitalize ws))
  = marked false ws /\
  forall c, is_lower c || is_upper c = true ->
            Re.sub_from Re.any_then_capitalized 0
              (c :: concat (map capitalize ws))
            = c :: marked true ws.
Proof.
  induction ws as [| w rest IH]; [intros _; split; reflexivity |].
  simpl forallb. rewrite andb_true_iff. intros [Hw Hrest].
  destruct (IH Hrest) as [A B].
  destruct (word_inv w Hw) as (u & r & -> & Hu & Hr).
  destruct (lower_facts u Hu) as (_ & _ & _ & _ & _ & HU & _).
  pose proof (caps_head rest Hrest) as Hhead.
  cbn [map concat marked]. rewrite (capitalize_word u r Hr).
  destruct (single_letter (u :: r)) eqn:S.
  - (* a one-letter word *)
    apply single_letter_inv in S. subst r.
    assert (B1 : forall c,
               Re.sub_from Re.any_then_capitalized 0
                 (c :: to_upper u :: concat (map capitalize rest))
               = c :: to_upper u :: marked true rest).
    { intros c. rewrite sub_miss by (apply m1_third; exact Hhead).
      f_equal. apply B. rewrite HU. apply orb_true_r. }
    split.
    + simpl app. apply B. rewrite HU. apply orb_true_r.
    + intros c _. apply B1.
  - (* a word of two letters or more *)
    apply long_inv in S. destruct r as [| l r]; [congruence |]. clear S.
    split.
    + change ((to_upper u :: l :: r) ++ concat (map capitalize rest))
        with (to_upper u :: l :: (r ++ concat (map capitalize rest))).
      rewrite sub_miss
        by (apply m1_second; simpl in Hr; apply andb_true_iff in Hr;
            apply (lower_facts l); tauto).
      change ((to_upper u :: l :: r) ++ marked true rest)
        with (to_upper u :: ((l :: r) ++ marked true rest)).
      f_equal.
      change (l :: r ++ concat (map capitalize rest))
        with ((l :: r) ++ concat (map capitalize rest)).
      apply (m1_run _ _ B); [discriminate | exact Hr].
    + intros c Hc.
      change (c :: (to_upper u :: l :: r) ++ concat (map capitalize rest))
        with (c :: to_upper u :: (l :: r) ++ concat (map capitalize rest)).
      rewrite (sub_hit _ _ _ _ _
                 (m1_match c (to_upper u) l r _ (letter_not_newline c Hc)
                    HU Hr Hhead)).
      change (pred (2 + length (l :: r)))
        with (length (to_upper u :: l :: r)).
      change (to_upper u :: (l :: r) ++ concat (map capitalize rest))
        with ((to_upper u :: l :: r) ++ concat (map capitalize rest)).
      rewrite sub_skip, A. reflexivity.
Qed.


(** *** The second substitution: ["([a-z0-9])([A-Z])"] *)

Lemma m2_first (c : ascii) (t : str) :
  is_lower c || is_digit c = false -> Re.small_then_capital (c :: t) = None.
Proof.
  intros Hc. unfold Re.small_then_capital. destruct t; [reflexivity |].
  rewrite Hc. reflexivity.
Qed.

Lemma m2_second (c d : ascii) (t : str) :
  is_upper d = false -> Re.small_then_capital (c :: d :: t) = None.
Proof.
  intros Hd. unfold Re.small_then_capital. rewrite Hd, andb_false_r.
  reflexivity.
Qed.

Lemma m2_match (c u : ascii) (t : str) :
  is_lower c = true -> is_upper u = true ->
  Re.small_then_capital (c :: u :: t) = Some ([c; Re.underscore; u], 2).
Proof.
  intros Hc Hu. unfold Re.small_then_capital. rewrite Hc, Hu. reflexivity.
Qed.

Lemma m2_run (x y : str) :
  (forall c, is_lower c = true ->
             lower (Re.sub_from Re.small_then_capital 0 (c :: x)) = c :: y) ->
  forall r, r <> [] -> forallb is_lower r = true ->
            lower (Re.sub_from Re.small_then_capital 0 (r ++ x)) = r ++ y.
Proof.
  intros Hx r. induction r as [| c r IH]; [congruence |].
  intros _ Hr. simpl in Hr. apply andb_true_iff in Hr. destruct Hr as [Hc Hr].
  destruct r as [| d r].
  - apply Hx, Hc.
  - simpl in Hr. assert (Hd : is_lower d = true)
      by (apply andb_true_iff in Hr; tauto).
    change ((c :: d :: r) ++ x) with (c :: d :: (r ++ x)).
    rewrite sub_miss by (apply m2_second; apply (lower_facts d Hd)).
    change ((c :: d :: r) ++ y) with (c :: ((d :: r) ++ y)).
    cbn [lower map]. f_equal; [apply (lower_facts c Hc) |].
    apply IH; [discriminate | exact Hr].
Qed.

Lemma no_adjacent_singles_tail (w : str) (rest : list str) :
  no_adjacent_singles (w :: rest) = true ->
  no_adjacent_singles rest = true /\
  (single_letter w = true ->
   match rest with [] => true | v :: _ => negb (single_letter v) end = true).
Proof.
  destruct rest as [| v rest]; [split; reflexivity |].
  cbn [no_adjacent_singles]. rewrite andb_true_iff, negb_true_iff.
  intros [H1 H2]. split; [exact H2 |]. intros Hw. rewrite Hw in H1.
  simpl in H1. rewrite H1. reflexivity.
Qed.

Lemma second_substitution (ws : list str) :
  forallb lowercase_word ws = true ->
  no_adjacent_singles ws = true ->
  (match ws with [] => true | w :: _ => negb (single_letter w) end = true ->
   lower (Re.sub_from Re.small_then_capital 0 (marked true ws))
   = concat (map (cons Re.underscore) ws)) /\
  (forall c free, is_lower c = true ->
     lower (Re.sub_from Re.small_then_capital 0 (c :: marked free ws))
     = c :: concat (map (cons Re.underscore) ws)).
Proof.
  induction ws as [| w rest IH].
  { intros _ _. split; [reflexivity |]. intros c free Hc. simpl.
    f_equal. apply (lower_facts c Hc). }
  simpl forallb. rewrite andb_true_iff. intros [Hw Hrest] Hadj.
  destruct (no_adjacent_singles_tail w rest Hadj) as [Hadj' Hnext].
  destruct (IH Hrest Hadj') as [T S]. clear IH.
  destruct (word_inv w Hw) as (u & r & -> & Hu & Hr).
  destruct (lower_facts u Hu) as (_ & _ & _ & _ & Hlu & HU & Hul).
  destruct (upper_facts _ HU) as (HUl & HUd & _).
  assert (Long : forall l r',
             r = l :: r' ->
             lower (Re.sub_from Re.small_then_capital 0
                      (marked true ((u :: r) :: rest)))
             = concat (map (cons Re.underscore) ((u :: r) :: rest))).
  { intros l r' ->. cbn [marked map concat].
    change (single_letter (u :: l :: r')) with false. cbv iota.
    rewrite (capitalize_word u (l :: r') Hr).
    change (Re.underscore :: (to_upper u :: l :: r') ++ marked false rest)
      with (Re.underscore :: to_upper u :: (l :: r') ++ marked false rest).
    rewrite sub_miss by (apply m2_first; reflexivity).
    rewrite sub_miss by (apply m2_first; rewrite HUl, HUd; reflexivity).
    cbn [lower map]. rewrite Hul.
    change (map to_lower ?x) with (lower x).
    rewrite (m2_run _ _ (fun c => S c false)) by (discriminate || exact Hr).
    reflexivity. }
  split.
  - destruct r as [| l r']; [discriminate |]. intros _.
    apply (Long l r' eq_refl).
  - intros c free Hc.
    destruct (lower_facts c Hc) as (_ & _ & _ & _ & Hlc & _).
    destruct r as [| l r'].
    + (* a one-letter word *)
      cbn [marked map concat]. change (single_letter [u]) with true.
      cbv iota. rewrite (capitalize_word u [] Hr).
      change (c :: [to_upper u] ++ marked true rest)
        with (c :: to_upper u :: marked true rest).
      rewrite (sub_hit _ _ _ _ _ (m2_match c (to_upper u) _ Hc HU)).
      change (Re.sub_from Re.small_then_capital (pred 2)
                (to_upper u :: marked true rest))
        with (Re.sub_from Re.small_then_capital 0 (marked true rest)).
      cbn [app lower map]. rewrite Hlc, Hul.
      change (map to_lower ?x) with (lower x).
      rewrite (T (Hnext eq_refl)). reflexivity.
    + (* a word of two letters or more *)
      destruct free.
      * cbn [marked]. change (single_letter (u :: l :: r')) with false.
        cbv iota.
        rewrite sub_miss by (apply m2_second; reflexivity).
        cbn [lower map]. rewrite Hlc. f_equal.
        change (map to_lower ?x) with (lower x).
        specialize (Long l r' eq_refl). cbn [marked] in Long.
        change (single_letter (u :: l :: r')) with false in Long.
        exact Long.
      * cbn [marked map concat].
        change (single_letter (u :: l :: r')) with false. cbv iota.
        rewrite (capitalize_word u (l :: r') Hr).
        change (c :: (to_upper u :: l :: r') ++ marked true rest)
          with (c :: to_upper u :: (l :: r') ++ marked true rest).
        rewrite (sub_hit _ _ _ _ _ (m2_match c (to_upper u) _ Hc HU)).
        change (Re.sub_from Re.small_then_capital (pred 2)
                  (to_upper u :: (l :: r') ++ marked true rest))
          with (Re.sub_from Re.small_then_capital 0
                  ((l :: r') ++ marked true rest)).
        cbn [app lower map]. rewrite Hlc, Hul.
        change (map to_lower ?x) with (lower x).
        change (l :: r' ++ marked true rest)
          with ((l :: r') ++ marked true rest).
        rewrite (m2_run _ _ (fun c => S c true)) by (discriminate || exact Hr).
        reflexivity.
Qed.


(** *** The two transforms *)

Lemma join_snake (w : str) (ws : list str) :
  join [Re.underscore] (w :: ws) = w ++ concat (map (cons Re.underscore) ws).
Proof.
  revert w. induction ws as [| v ws IH]; intros w.
  - simpl. symmetry. apply app_nil_r.
  - change (join [Re.underscore] (w :: v :: ws))
      with (w ++ [Re.underscore] ++ join [Re.underscore] (v :: ws)).
    rewrite IH. reflexivity.
Qed.

Lemma word_no_underscore (w : str) :
  forallb is_lower w = true -> existsb (Ascii.eqb Re.underscore) w = false.
Proof.
  induction w as [| c w IH]; cbn [existsb forallb]; [reflexivity |].
  rewrite andb_true_iff. intros [Hc Hw]. rewrite (IH Hw), orb_false_r.
  rewrite Ascii.eqb_sym. apply (lower_facts c Hc).
Qed.

Lemma split_join (sep : ascii) (l : list str) (x : str) :
  forallb (fun w => negb (existsb (Ascii.eqb sep) w)) (x :: l) = true ->
  split sep (join [sep] (x :: l)) = x :: l.
Proof.
  revert x. induction l as [| y l IH]; intros x; simpl forallb;
    rewrite andb_true_iff, negb_true_iff; intros [Hx Hl].
  - apply split_none. exact Hx.
  - change (join [sep] (x :: y :: l)) with (x ++ sep :: join [sep] (y :: l)).
    rewrite (split_first sep x _ Hx), (IH y Hl). reflexivity.
Qed.

Lemma snake_to_camel_words (w : str) (ws : list str) :
  forallb lowercase_word (w :: ws) = true ->
  snake_to_camel (join [Re.underscore] (w :: ws))
  = w ++ concat (map capitalize ws).
Proof.
  intros H. unfold snake_to_camel. rewrite split_join; [reflexivity |].
  revert H. generalize (w :: ws) as l. intros l.
  induction l as [| v l IH]; simpl; [reflexivity |].
  rewrite !andb_true_iff. intros [Hv Hl]. split; [| exact (IH Hl)].
  apply negb_true_iff, word_no_underscore.
  unfold lowercase_word in Hv. apply andb_true_iff in Hv. tauto.
Qed.

Lemma camel_to_snake_words (w : str) (ws : list str) :
  forallb lowercase_word (w :: ws) = true ->
  no_adjacent_singles ws = true ->
  camel_to_snake (w ++ concat (map capitalize ws))
  = join [Re.underscore] (w :: ws).
Proof.
  simpl forallb. rewrite andb_true_iff. intros [Hw Hws] Hadj.
  destruct (word_inv w Hw) as (u & r & E & Hu & Hr).
  assert (Hne : w <> []) by (rewrite E; discriminate).
  assert (Hlow : forallb is_lower w = true)
    by (rewrite E; simpl; rewrite Hu, Hr; reflexivity).
  unfold camel_to_snake, Re.sub.
  rewrite (m1_run _ _ (proj2 (first_substitution ws Hws)) w Hne Hlow).
  rewrite (m2_run _ _
             (fun c => proj2 (second_substitution ws Hws Hadj) c true)
             w Hne Hlow).
  symmetry. apply join_snake.
Qed.

End FieldNames.

(** C3 (amended).  For every identifier that is a lowercase word or an
    underscore-joined sequence of lowercase words in which no two
    one-letter words after the first word stand next to each other, the
    field-name transforms are mutual inverses:
    camel_to_snake(snake_to_camel(x)) = x, and for the external identifier
    y = snake_to_camel(x), snake_to_camel(camel_to_snake(y)) = y.  Every
    field name of the schemas is such an identifier and is returned
    unchanged. *)
Theorem field_names_round_trip (w : str) (ws : list str) :
  forallb Spec.lowercase_word (w :: ws) = true ->
  Spec.no_adjacent_singles ws = true ->
  Schemas.camel_to_snake (Schemas.snake_to_camel (join "_" (w :: ws)))
  = join "_" (w :: ws) /\
  Schemas.snake_to_camel
    (Schemas.camel_to_snake (Schemas.snake_to_camel (join "_" (w :: ws))))
  = Schemas.snake_to_camel (join "_" (w :: ws)) /\
  forallb (fun x => str_eqb (Schemas.camel_to_snake (Schemas.snake_to_camel x)) x)
    Spec.field_names = true.
Proof.
  intros Hw Hadj.
  assert (E : Schemas.camel_to_snake
                (Schemas.snake_to_camel (join "_" (w :: ws)))
              = join "_" (w :: ws)).
  { change ("_" : str) with [Re.underscore].
    rewrite (snake_to_camel_words w ws Hw).
    apply (camel_to_snake_words w ws Hw Hadj). }
  split; [exact E |]. split; [rewrite E; reflexivity |].
  vm_compute. reflexivity.
Qed.

Lemma field_names_round_trip_witness :
  Schemas.camel_to_snake (Schemas.snake_to_camel "a_b_cd_e_fgh") = "a_b_cd_e_fgh".
Proof.
  apply (field_names_round_trip "a" ["b"; "cd"; "e"; "fgh"]); reflexivity.
Defined.

(** C3 as stated fails: "a_b_c" is an underscore-joined sequence of
    lowercase words; its external form is "aBC", which maps back to
    "a_bc". *)
Lemma field_names_round_trip_fails :
  ~ (forall (w : str) (ws : list str),
        forallb Spec.lowercase_word (w :: ws) = true ->
        Schemas.camel_to_snake (Schemas.snake_to_camel (join "_" (w :: ws)))
        = join "_" (w :: ws)).
Proof.
  intros H. specialize (H "a" ["b"; "c"] eq_refl). vm_compute in H.
  discriminate H.
Qed.

(* ================================================================= *)
(** ** Further properties: the field-name transforms *)

Section FieldNameFacts.

Import Schemas Spec Facts.

Lemma split_pieces (sep : ascii) (s : str) :
  forallb (fun p => negb (existsb (Ascii.eqb sep) p)) (split sep s) = true.
Proof.
  induction s as [| c s IH]; [reflexivity |].
  cbn [split]. destruct (Ascii.eqb c sep) eqn:E.
  - cbn [forallb existsb negb]. exact IH.
  - destruct (split sep s) as [| p ps];
      cbn [forallb existsb] in IH |- *; rewrite Ascii.eqb_sym, E;
      [reflexivity | exact IH].
Qed.

Lemma case_keeps_underscore (c : ascii) :
  Ascii.eqb Re.underscore c = false ->
  Ascii.eqb Re.underscore (to_upper c) = false /\
  Ascii.eqb Re.underscore (to_lower c) = false.
Proof.
  destruct c as [[] [] [] [] [] [] [] []]; vm_compute; intros H;
    (discriminate H || (split; reflexivity)).
Qed.

Lemma lower_keeps_underscore (s : str) :
  existsb (Ascii.eqb Re.underscore) s = false ->
  existsb (Ascii.eqb Re.underscore) (lower s) = false.
Proof.
  induction s as [| c s IH]; [reflexivity |]. cbn [existsb lower map].
  rewrite !orb_false_iff. intros [Hc Hs]. split; [| exact (IH Hs)].
  apply (case_keeps_underscore c Hc).
Qed.

Lemma capitalize_keeps_underscore (s : str) :
  existsb (Ascii.eqb Re.underscore) s = false ->
  existsb (Ascii.eqb Re.underscore) (capitalize s) = false.
Proof.
  destruct s as [| c s]; [reflexivity |]. cbn [existsb capitalize].
  rewrite !orb_false_iff. intros [Hc Hs]. split.
  - apply (case_keeps_underscore c Hc).
  - apply lower_keeps_underscore, Hs.
Qed.

Lemma concat_capitalize_no_underscore (l : list str) :
  forallb (fun p => negb (existsb (Ascii.eqb Re.underscore) p)) l = true ->
  existsb (Ascii.eqb Re.underscore) (concat (map capitalize l)) = false.
Proof.
  induction l as [| p l IH]; [reflexivity |]. cbn [forallb map concat].
  rewrite andb_true_iff, negb_true_iff. intros [Hp Hl].
  apply existsb_app_false; [apply capitalize_keeps_underscore, Hp | exact (IH Hl)].
Qed.

Lemma snake_to_camel_no_underscore (name : str) :
  existsb (Ascii.eqb Re.underscore) (snake_to_camel name) = false.
Proof.
  unfold snake_to_camel. cbv zeta.
  pose proof (split_pieces Re.underscore name) as H.
  destruct (split Re.underscore name) as [| p l]; [reflexivity |].
  cbn [forallb hd tl] in H |- *.
  apply andb_true_iff in H. destruct H as [Hp Hl].
  apply negb_true_iff in Hp.
  apply existsb_app_false; [exact Hp |].
  apply concat_capitalize_no_underscore, Hl.
Qed.

Lemma snake_to_camel_single (name : str) :
  existsb (Ascii.eqb Re.underscore) name = false ->
  snake_to_camel name = name.
Proof.
  intros H. unfold snake_to_camel. rewrite (split_none _ _ H).
  apply app_nil_r.
Qed.

(** The substitutions leave a text without capital letters as it is. *)
Lemma sub_no_capital (s : str) :
  forallb (fun c => negb (is_upper c)) s = true ->
  Re.sub Re.any_then_capitalized s = s /\
  Re.sub Re.small_then_capital s = s.
Proof.
  unfold Re.sub. induction s as [| c s IH]; [split; reflexivity |].
  cbn [forallb]. rewrite andb_true_iff. intros [Hc Hs].
  destruct (IH Hs) as [IH1 IH2].
  assert (Hd : match s with [] => True | d :: _ => is_upper d = false end).
  { destruct s as [| d s]; [exact I |]. cbn [forallb] in Hs.
    apply andb_true_iff in Hs. destruct Hs as [Hd _].
    apply negb_true_iff in Hd. exact Hd. }
  split.
  - rewrite sub_miss; [rewrite IH1; reflexivity |].
    destruct s as [| d s]; [reflexivity |]. apply m1_second, Hd.
  - rewrite sub_miss; [rewrite IH2; reflexivity |].
    destruct s as [| d s]; [reflexivity |]. apply m2_second, Hd.
Qed.

Lemma camel_to_snake_no_capital (name : str) :
  forallb (fun c => negb (is_upper c)) (camel_to_snake name) = true.
Proof. unfold camel_to_snake. apply lower_no_upper. Qed.

Lemma camel_to_snake_fixed (name : str) :
  forallb (fun c => negb (is_upper c)) name = true ->
  camel_to_snake name = name.
Proof.
  intros H. unfold camel_to_snake. cbv zeta.
  destruct (sub_no_capital name H) as [E1 E2].
  rewrite E1, E2. apply lower_fixed, H.
Qed.

End FieldNameFacts.

(** X1.  The external form of a name never contains an underscore, and
    [snake_to_camel] is idempotent: an external name is its own external
    form. *)
Theorem snake_to_camel_idempotent (name : str) :
  existsb (Ascii.eqb Re.underscore) (Schemas.snake_to_camel name) = false /\
  Schemas.snake_to_camel (Schemas.snake_to_camel name)
  = Schemas.snake_to_camel name.
Proof.
  split; [apply snake_to_camel_no_underscore |].
  apply snake_to_camel_single, snake_to_camel_no_underscore.
Qed.

(** X2.  The internal form of a name never contains a capital letter, and
    [camel_to_snake] is idempotent: whatever the name, applying it twice
    gives what applying it once gives. *)
Theorem camel_to_snake_idempotent (name : str) :
  forallb (fun c => negb (is_upper c)) (Schemas.camel_to_snake name) = true /\
  Schemas.camel_to_snake (Schemas.camel_to_snake name)
  = Schemas.camel_to_snake name.
Proof.
  split; [apply camel_to_snake_no_capital |].
  apply camel_to_snake_fixed, camel_to_snake_no_capital.
Qed.

(** X3.  Two identifiers of the vocabulary (lowercase words joined by
    underscores, no two one-letter words after the first next to each
    other) with the same external form are the same identifier: the
    external names of distinct fields do not collide. *)
Theorem snake_to_camel_injective (ws ws' : list str) :
  Facts.identifier_words ws = true ->
  Facts.identifier_words ws' = true ->
  Schemas.snake_to_camel (join "_" ws) = Schemas.snake_to_camel (join "_" ws') ->
  join "_" ws = join "_" ws'.
Proof.
  unfold Facts.identifier_words.
  destruct ws as [| w rest]; [discriminate |].
  destruct ws' as [| w' rest']; [discriminate |].
  rewrite !andb_true_iff. intros [Hw Hadj] [Hw' Hadj'] E.
  change ("_" : str) with [Re.underscore] in *.
  rewrite <- (camel_to_snake_words w rest Hw Hadj).
  rewrite <- (camel_to_snake_words w' rest' Hw' Hadj').
  rewrite <- (snake_to_camel_words w rest Hw).
  rewrite <- (snake_to_camel_words w' rest' Hw').
  rewrite E. reflexivity.
Qed.

Lemma snake_to_camel_injective_witness :
  join "_" ["order"; "index"] = join "_" ["order"; "index"].
Proof.
  apply (snake_to_camel_injective ["order"; "index"] ["order"; "index"]);
    reflexivity.
Defined.

(* ================================================================= *)
(** ** Further properties: dates and durations *)

Section DateFacts.

Import Schemas Spec Facts.

Lemma valid_date_month (d : date) :
  valid_date d = true -> (1 <= month d <= 12)%Z.
Proof.
  unfold valid_date. rewrite !andb_true_iff. lia.
Qed.

Lemma duration_counts_months (s e : date) :
  (1 <= month s <= 12)%Z -> (1 <= month e <= 12)%Z ->
  (12 * fst (duration_counts s e) + snd (duration_counts s e)
   = months_between s e)%Z /\
  (0 <= snd (duration_counts s e) < 12)%Z.
Proof.
  intros Hs He. rewrite duration_counts_spec. cbv zeta.
  unfold months_between.
  destruct (month e - month s <? 0)%Z eqn:E; simpl fst; simpl snd; lia.
Qed.

Lemma date_leb_months (a b : date) :
  (1 <= month a <= 12)%Z -> (1 <= month b <= 12)%Z ->
  date_leb a b = true ->
  (12 * year a + month a <= 12 * year b + month b)%Z.
Proof.
  unfold date_leb, date_ltb, date_eqb. intros Ha Hb.
  rewrite !orb_true_iff, !andb_true_iff, !orb_true_iff, !andb_true_iff.
  lia.
Qed.

Lemma date_leb_trans (a b c : date) :
  date_leb a b = true -> date_leb b c = true -> date_leb a c = true.
Proof.
  unfold date_leb, date_ltb, date_eqb.
  rewrite !orb_true_iff, !andb_true_iff, !orb_true_iff, !andb_true_iff.
  lia.
Qed.

Lemma date_ltb_leb (a b : date) :
  date_ltb a b = false -> date_leb b a = true.
Proof.
  unfold date_leb, date_ltb, date_eqb.
  rewrite !orb_false_iff, !andb_false_iff, !orb_false_iff, !andb_false_iff.
  rewrite !orb_true_iff, !andb_true_iff, !orb_true_iff, !andb_true_iff.
  lia.
Qed.

Lemma date_leb_false (a b : date) :
  date_leb a b = false -> date_leb b a = true.
Proof.
  unfold date_leb, date_ltb, date_eqb.
  rewrite !orb_false_iff, !andb_false_iff, !orb_false_iff, !andb_false_iff.
  rewrite !orb_true_iff, !andb_true_iff, !orb_true_iff, !andb_true_iff.
  lia.
Qed.

(** What passing [validate_dates] means. *)
Lemma validate_dates_passed (today s : date) (end_date : option date) :
  validate_dates today (Some s) end_date = Passed ->
  date_leb s today = true /\
  match end_date with
  | Some e => date_leb e s = false
  | None => True
  end.
Proof.
  unfold validate_dates, when, and_then.
  destruct end_date as [e |].
  - destruct (date_leb e s) eqn:E; [discriminate |].
    destruct (date_ltb today s) eqn:F; [discriminate |].
    intros _. split; [apply date_ltb_leb, F | reflexivity].
  - destruct (date_ltb today s) eqn:F; [discriminate |].
    intros _. split; [apply date_ltb_leb, F | exact I].
Qed.

End DateFacts.

(** X4.  The counts of the duration are the quotient and the remainder of
    the number of months between the month of the start and the month of
    the end, by floor division by 12, whatever the order of the two dates:
    months is always between 0 and 11, and for an end before the start it
    is years that goes negative. *)
Theorem duration_counts_div_mod (s e : date) :
  valid_date s = true -> valid_date e = true ->
  fst (Schemas.duration_counts s e) = (Facts.months_between s e / 12)%Z /\
  snd (Schemas.duration_counts s e) = (Facts.months_between s e mod 12)%Z.
Proof.
  intros Hs He.
  destruct (duration_counts_months s e (valid_date_month s Hs)
              (valid_date_month e He)) as [E R].
  split.
  - apply (Z.div_unique_pos _ 12 _ (snd (Schemas.duration_counts s e)));
      [exact R | lia].
  - apply (Z.mod_unique_pos _ 12 (fst (Schemas.duration_counts s e)));
      [exact R | lia].
Qed.

Lemma duration_counts_div_mod_witness :
  fst (Schemas.duration_counts (mkdate 2024 3 1) (mkdate 2022 1 15))
  = (Facts.months_between (mkdate 2024 3 1) (mkdate 2022 1 15) / 12)%Z /\
  snd (Schemas.duration_counts (mkdate 2024 3 1) (mkdate 2022 1 15))
  = (Facts.months_between (mkdate 2024 3 1) (mkdate 2022 1 15) mod 12)%Z.
Proof.
  apply (duration_counts_div_mod (mkdate 2024 3 1) (mkdate 2022 1 15));
    reflexivity.
Defined.

(** X5.  The duration of a current position does not go back as time
    passes: for a later reference date the total of months, 12 * years +
    months, is at least what it was. *)
Theorem duration_grows_with_today (today later : date)
        (obj : Schemas.Experience) :
  valid_date (Schemas.start_date obj) = true ->
  valid_date today = true -> valid_date later = true ->
  Schemas.end_date obj = None ->
  date_leb today later = true ->
  (12 * fst (Schemas.duration_counts (Schemas.start_date obj)
               (Schemas.effective_end today obj))
   + snd (Schemas.duration_counts (Schemas.start_date obj)
            (Schemas.effective_end today obj))
   <= 12 * fst (Schemas.duration_counts (Schemas.start_date obj)
                  (Schemas.effective_end later obj))
      + snd (Schemas.duration_counts (Schemas.start_date obj)
               (Schemas.effective_end later obj)))%Z.
Proof.
  intros Hs Ht Hl Hend Hle. unfold Schemas.effective_end. rewrite Hend.
  pose proof (valid_date_month _ Hs) as Ms.
  pose proof (valid_date_month _ Ht) as Mt.
  pose proof (valid_date_month _ Hl) as Ml.
  destruct (duration_counts_months (Schemas.start_date obj) today Ms Mt)
    as [E1 _].
  destruct (duration_counts_months (Schemas.start_date obj) later Ms Ml)
    as [E2 _].
  rewrite E1, E2. unfold Facts.months_between.
  pose proof (date_leb_months today later Mt Ml Hle). lia.
Qed.

Lemma duration_grows_with_today_witness :
  (12 * fst (Schemas.duration_counts (mkdate 2022 3 1) (mkdate 2023 12 31))
   + snd (Schemas.duration_counts (mkdate 2022 3 1) (mkdate 2023 12 31))
   <= 12 * fst (Schemas.duration_counts (mkdate 2022 3 1) (mkdate 2024 1 1))
      + snd (Schemas.duration_counts (mkdate 2022 3 1) (mkdate 2024 1 1)))%Z.
Proof.
  apply (duration_grows_with_today (mkdate 2023 12 31) (mkdate 2024 1 1)
           (Schemas.mkExperience "Acme" "Engineer" None (mkdate 2022 3 1)
              None Schemas.Null Schemas.Null 0));
    reflexivity.
Defined.

(** X6.  An Experience whose dates [validate_dates] accepted on some day
    has, on that day and on every later one, an effective end date not
    before its start date, so its duration shows no negative count. *)
Theorem accepted_dates_render_without_sign (today later : date)
        (obj : Schemas.Experience) :
  valid_date (Schemas.start_date obj) = true ->
  valid_date (Schemas.effective_end later obj) = true ->
  Schemas.validate_dates today (Some (Schemas.start_date obj))
    (Schemas.end_date obj) = Passed ->
  date_leb today later = true ->
  date_leb (Schemas.start_date obj) (Schemas.effective_end later obj) = true /\
  ~ In Re.hyphen (Schemas.calculate_duration later obj).
Proof.
  intros Hs He Hv Hle.
  destruct (validate_dates_passed _ _ _ Hv) as [Hst Hend].
  assert (Hord : date_leb (Schemas.start_date obj)
                   (Schemas.effective_end later obj) = true).
  { unfold Schemas.effective_end in *.
    destruct (Schemas.end_date obj) as [e |].
    - apply date_leb_false, Hend.
    - exact (date_leb_trans _ _ _ Hst Hle). }
  split; [exact Hord |].
  destruct (duration_counts_bounds _ _ Hs He Hord) as [Hy Hm].
  apply calculate_duration_hyphen_free; tauto.
Qed.

Lemma accepted_dates_render_without_sign_witness :
  date_leb (mkdate 2022 3 1) (mkdate 2024 6 1) = true /\
  ~ In Re.hyphen
      (Schemas.calculate_duration (mkdate 2024 6 1)
         (Schemas.mkExperience "Acme" "Engineer" None (mkdate 2022 3 1)
            None Schemas.Null Schemas.Null 0)).
Proof.
  apply (accepted_dates_render_without_sign (mkdate 2024 3 1) (mkdate 2024 6 1)
           (Schemas.mkExperience "Acme" "Engineer" None (mkdate 2022 3 1)
              None Schemas.Null Schemas.Null 0));
    reflexivity.
Defined.

(* ================================================================= *)
(** ** Further properties: the validators *)

Section ValidatorFacts.

Import Schemas Spec Facts.

Lemma drop_while_only (p : ascii -> bool) (s : str) :
  forallb p s = true -> drop_while p s = [].
Proof.
  induction s as [| c s IH]; [reflexivity |]. cbn [forallb drop_while].
  rewrite andb_true_iff. intros [Hc Hs]. rewrite Hc. exact (IH Hs).
Qed.

Lemma trim_only (p : ascii -> bool) (s : str) :
  forallb p s = true -> trim p s = [].
Proof.
  intros H. unfold trim. rewrite (drop_while_only p s H). reflexivity.
Qed.

Lemma take_while_split (p : ascii -> bool) (s : str) :
  s = Re.take_while p s ++ skipn (length (Re.take_while p s)) s /\
  forallb p (Re.take_while p s) = true.
Proof.
  induction s as [| c s [IH1 IH2]]; [split; reflexivity |].
  cbn [Re.take_while]. destruct (p c) eqn:E.
  - cbn [length skipn app forallb]. rewrite E, IH2. split; [| reflexivity].
    f_equal. exact IH1.
  - split; reflexivity.
Qed.

Lemma take_while_stop (p : ascii -> bool) (a : str) (c : ascii) (b : str) :
  forallb p a = true -> p c = false -> Re.take_while p (a ++ c :: b) = a.
Proof.
  intros Ha Hc. induction a as [| d a IH]; cbn [app Re.take_while].
  - rewrite Hc. reflexivity.
  - cbn [forallb] in Ha. apply andb_true_iff in Ha. destruct Ha as [Hd Ha].
    rewrite Hd, (IH Ha). reflexivity.
Qed.

Lemma match_slug_pattern_body (body : str) :
  body <> [] -> forallb Re.is_slug_char body = true ->
  Re.match_slug_pattern body = true /\
  Re.match_slug_pattern (body ++ [Re.newline]) = true.
Proof.
  intros Hne Hb. unfold Re.match_slug_pattern. cbv zeta. split.
  - rewrite (take_while_all _ body Hb), skipn_all.
    destruct body; [congruence | reflexivity].
  - rewrite (take_while_stop _ body Re.newline [] Hb eq_refl).
    rewrite skipn_app, skipn_all, Nat.sub_diag.
    destruct body; [congruence | reflexivity].
Qed.

Lemma validate_social_links_passed (links : list SocialLink) :
  validate_social_links (Some links) = Passed <->
  NoDup (map platform_key links) /\
  Forall (fun l => domain_ok l = true) links.
Proof.
  destruct links as [| l rest].
  - simpl. split; [| reflexivity]. intros _. split; constructor.
  - unfold validate_social_links. rewrite check_links_passed.
    split; [tauto |]. intros [H1 H2].
    split; [intros k _ [] | split; assumption].
Qed.

End ValidatorFacts.

(** X7.  A message made of white space only is rejected by
    [validate_message_content] whatever its length, with the message of
    the schema-level rule. *)
Theorem blank_message_rejected (message : str) :
  forallb is_space message = true ->
  Schemas.validate_message_content (Some message)
  = Raised "Message must be at least 10 characters long".
Proof.
  intros H. unfold Schemas.validate_message_content, strip.
  rewrite (trim_only is_space message H). reflexivity.
Qed.

Lemma blank_message_rejected_witness :
  Schemas.validate_message_content (Some "                    ")
  = Raised "Message must be at least 10 characters long".
Proof.
  apply (blank_message_rejected "                    "). reflexivity.
Defined.

(** X8.  The slug pattern of [validate_slug_format] accepts exactly the
    non-empty texts of small letters, digits and hyphens, and those texts
    followed by one newline: the [$] of the pattern also matches before a
    final newline. *)
Theorem slug_pattern_accepts (slug : str) :
  Schemas.validate_slug_format (Some slug) = Passed <->
  exists body : str,
    body <> [] /\ forallb Re.is_slug_char body = true /\
    (slug = body \/ slug = body ++ [Re.newline]).
Proof.
  unfold Schemas.validate_slug_format, when. split.
  - destruct (Re.match_slug_pattern slug) eqn:E; [| discriminate].
    intros _. unfold Re.match_slug_pattern in E. cbv zeta in E.
    destruct (take_while_split Re.is_slug_char slug) as [Hs Hb].
    exists (Re.take_while Re.is_slug_char slug).
    apply andb_true_iff in E. destruct E as [Hne Hend].
    split; [| split; [exact Hb |]].
    + intros E. rewrite E in Hne. discriminate Hne.
    + destruct (skipn _ slug) as [| c [| d r]] eqn:K.
      * left. rewrite app_nil_r in Hs. exact Hs.
      * right. simpl in Hend. apply Ascii.eqb_eq in Hend. subst c. exact Hs.
      * discriminate Hend.
  - intros (body & Hne & Hb & [-> | ->]);
      destruct (match_slug_pattern_body body Hne Hb) as [E1 E2];
      [rewrite E1 | rewrite E2]; reflexivity.
Qed.

(** X9.  Whether a social-links list passes [validate_social_links] does
    not depend on the order of its entries. *)
Theorem validate_social_links_order (links links' : list Schemas.SocialLink) :
  Permutation links links' ->
  (Schemas.validate_social_links (Some links) = Passed <->
   Schemas.validate_social_links (Some links') = Passed).
Proof.
  intros P. rewrite !validate_social_links_passed. split; intros [Hnd Hok].
  - split.
    + apply (Permutation_NoDup (Permutation_map _ P)), Hnd.
    + apply (Permutation_Forall P), Hok.
  - apply Permutation_sym in P. split.
    + apply (Permutation_NoDup (Permutation_map _ P)), Hnd.
    + apply (Permutation_Forall P), Hok.
Qed.

Lemma validate_social_links_order_witness :
  Schemas.validate_social_links
    (Some [Schemas.mkLink (Some "GitHub") (Some "https://github.com/a")
             (Some "github");
           Schemas.mkLink (Some "Email") (Some "mailto:a@example.com")
             (Some "email")]) = Passed <->
  Schemas.validate_social_links
    (Some [Schemas.mkLink (Some "Email") (Some "mailto:a@example.com")
             (Some "email");
           Schemas.mkLink (Some "GitHub") (Some "https://github.com/a")
             (Some "github")]) = Passed.
Proof.
  apply (validate_social_links_order
           [Schemas.mkLink (Some "GitHub") (Some "https://github.com/a")
              (Some "github");
            Schemas.mkLink (Some "Email") (Some "mailto:a@example.com")
              (Some "email")]
           [Schemas.mkLink (Some "Email") (Some "mailto:a@example.com")
              (Some "email");
            Schemas.mkLink (Some "GitHub") (Some "https://github.com/a")
              (Some "github")]).
  apply perm_swap.
Defined.

(* ================================================================= *)
(** ** Further properties: the derived slug *)

Section SlugFacts.

Import Admin Spec Facts.

Lemma trim_head (p : ascii -> bool) (s : str) :
  match trim p s with c :: _ => p c | [] => false end = false.
Proof.
  unfold trim. destruct (drop_while_head p s) as [E | (h & r & E & Hh)];
    rewrite E; [reflexivity |].
  rewrite (drop_while_end_cons p h r Hh). exact Hh.
Qed.

Lemma trim_last (p : ascii -> bool) (s : str) :
  match rev (trim p s) with c :: _ => p c | [] => false end = false.
Proof.
  unfold trim, drop_while_end. rewrite rev_involutive.
  destruct (drop_while_head p (rev (drop_while p s)))
    as [E | (h & r & E & Hh)]; rewrite E; [reflexivity | exact Hh].
Qed.

Lemma tidy_no_space (b : bool) (s : str) :
  tidy b s = true -> forallb (fun c => negb (is_space c)) s = true.
Proof.
  revert b. induction s as [| c s IH]; intros b; [reflexivity |].
  cbn [tidy forallb]. rewrite !andb_true_iff.
  intros ((Hc & _) & Hs). split; [exact Hc | exact (IH _ Hs)].
Qed.

Lemma tidy_strengthen (s : str) :
  tidy false s = true ->
  match s with c :: _ => Ascii.eqb Re.hyphen c | [] => false end = false ->
  tidy true s = true.
Proof.
  destruct s as [| c s]; [reflexivity |]. cbn [tidy].
  rewrite !andb_true_iff. intros ((Hc & _) & Hs) Hh.
  rewrite Ascii.eqb_sym in Hh. rewrite Hh in Hs |- *.
  repeat split; assumption || reflexivity.
Qed.

Lemma forallb_three (p1 p2 p3 q : ascii -> bool) (s : str) :
  (forall c, p1 c = true -> p2 c = true -> p3 c = true -> q c = true) ->
  forallb p1 s = true -> forallb p2 s = true -> forallb p3 s = true ->
  forallb q s = true.
Proof.
  intros Hq. induction s as [| c s IH]; [reflexivity |]. cbn [forallb].
  rewrite !andb_true_iff. intros [H1 S1] [H2 S2] [H3 S3]. auto.
Qed.

Lemma slug_letter_classes (c : ascii) :
  negb (is_upper c) = true -> negb (Re.is_slug_junk c) = true ->
  negb (is_space c) = true -> is_slug_letter c = true.
Proof.
  destruct c as [[] [] [] [] [] [] [] []]; vm_compute; intros H1 H2 H3;
    (reflexivity || discriminate).
Qed.

Lemma slug_char_of_letter (c : ascii) :
  is_slug_letter c = true -> negb (Ascii.eqb Re.underscore c) = true ->
  negb (is_space c) = true -> Re.is_slug_char c = true.
Proof.
  destruct c as [[] [] [] [] [] [] [] []]; vm_compute; intros H1 H2 H3;
    (reflexivity || discriminate).
Qed.

(** What every derived slug satisfies. *)
Lemma generate_slug_classes (title : str) :
  forallb (fun c => negb (is_upper c)) (generate_slug title) = true /\
  forallb (fun c => negb (Re.is_slug_junk c)) (generate_slug title) = true /\
  tidy false (generate_slug title) = true.
Proof.
  unfold generate_slug, strip_char. cbv zeta. split; [| split].
  - apply forallb_trim, sub_gap_forallb; [reflexivity |].
    rewrite sub_junk_filter. apply forallb_filter, lower_no_upper.
  - apply forallb_trim, sub_gap_forallb; [reflexivity |].
    rewrite sub_junk_filter. apply forallb_filter_self.
  - apply tidy_trim with (b := false). apply sub_gap_tidy.
Qed.

Lemma generate_slug_letters (title : str) :
  forallb is_slug_letter (generate_slug title) = true.
Proof.
  destruct (generate_slug_classes title) as (H1 & H2 & H3).
  apply (forallb_three _ _ _ _ _ slug_letter_classes H1 H2
           (tidy_no_space _ _ H3)).
Qed.

Lemma generate_slug_tidy (title : str) :
  tidy true (generate_slug title) = true /\
  starts_with_hyphen (rev (generate_slug title)) = false.
Proof.
  destruct (generate_slug_classes title) as (_ & _ & H3). split.
  - apply tidy_strengthen; [exact H3 |].
    unfold generate_slug, strip_char. apply trim_head.
  - unfold starts_with_hyphen, generate_slug, strip_char. apply trim_last.
Qed.

(** *** Titles without an underscore *)

Lemma forallb_map_lower (q : ascii -> bool) (s : str) :
  (forall c, q c = true -> q (to_lower c) = true) ->
  forallb q s = true -> forallb q (lower s) = true.
Proof.
  intros Hq. induction s as [| c s IH]; [reflexivity |].
  cbn [forallb lower map]. rewrite !andb_true_iff.
  intros [Hc Hs]. split; [exact (Hq c Hc) | exact (IH Hs)].
Qed.

Lemma generate_slug_forallb (q : ascii -> bool) (title : str) :
  (forall c, q c = true -> q (to_lower c) = true) ->
  q Re.hyphen = true ->
  forallb q title = true -> forallb q (generate_slug title) = true.
Proof.
  intros Hl Hh H. unfold generate_slug, strip_char. cbv zeta.
  apply forallb_trim, sub_gap_forallb; [exact Hh |].
  rewrite sub_junk_filter. apply forallb_filter, forallb_map_lower;
    assumption.
Qed.

Lemma existsb_false_forallb (p : ascii -> bool) (s : str) :
  existsb p s = false <-> forallb (fun c => negb (p c)) s = true.
Proof.
  induction s as [| c s IH]; [split; reflexivity |].
  cbn [existsb forallb].
  rewrite orb_false_iff, andb_true_iff, negb_true_iff, IH. tauto.
Qed.

(** A character that is not a gap survives the second substitution. *)
Lemma sub_gap_keeps (b : ascii) (s : str) :
  Re.is_gap b = false -> In b s ->
  forall k, (k <= length (Re.take_while Re.is_gap s))%nat ->
            In b (Re.sub_from Re.gap_run k s).
Proof.
  intros Hb. induction s as [| c s IH]; [intros [] |].
  intros Hin k Hk. cbn [Re.sub_from Re.gap_run Re.take_while] in *.
  destruct (Re.is_gap c) eqn:G.
  - assert (Hs : In b s).
    { destruct Hin as [-> | H]; [congruence | exact H]. }
    cbn [length] in Hk. destruct k as [| k].
    + cbn [app pred length]. right. apply (IH Hs). apply Nat.le_refl.
    + apply (IH Hs). lia.
  - cbn [length] in Hk. assert (k = 0%nat) by lia. subst k.
    destruct Hin as [-> | H]; [left; reflexivity |].
    right. apply (IH H). apply Nat.le_0_l.
Qed.

Lemma drop_while_keeps (p : ascii -> bool) (b : ascii) (s : str) :
  p b = false -> In b s -> In b (drop_while p s).
Proof.
  intros Hb. induction s as [| c s IH]; [intros [] |].
  intros Hin. cbn [drop_while]. destruct (p c) eqn:E; [| exact Hin].
  destruct Hin as [-> | H]; [congruence | exact (IH H)].
Qed.

Lemma trim_keeps (p : ascii -> bool) (b : ascii) (s : str) :
  p b = false -> In b s -> In b (trim p s).
Proof.
  intros Hb Hin. unfold trim, drop_while_end.
  rewrite <- in_rev. apply drop_while_keeps; [exact Hb |].
  rewrite <- in_rev. apply drop_while_keeps; assumption.
Qed.

Lemma alnum_survives (c : ascii) :
  is_alnum c = true ->
  Re.is_slug_junk (to_lower c) = false /\ Re.is_gap (to_lower c) = false /\
  Ascii.eqb Re.hyphen (to_lower c) = false.
Proof.
  destruct c as [[] [] [] [] [] [] [] []]; vm_compute; intros H;
    (discriminate H || (repeat split; reflexivity)).
Qed.

Lemma generate_slug_nonempty (title : str) :
  existsb is_alnum title = true -> generate_slug title <> [].
Proof.
  intros H. apply existsb_exists in H. destruct H as (c & Hin & Hc).
  destruct (alnum_survives c Hc) as (Hj & Hg & Hh).
  assert (Hs : In (to_lower c) (generate_slug title)).
  { unfold generate_slug, strip_char. cbv zeta.
    apply trim_keeps; [exact Hh |].
    apply sub_gap_keeps; [exact Hg | | apply Nat.le_0_l].
    rewrite sub_junk_filter. apply filter_In. split.
    - apply in_map, Hin.
    - rewrite Hj. reflexivity. }
  intros E. rewrite E in Hs. exact Hs.
Qed.

Lemma lower_not_underscore (c : ascii) :
  negb (Ascii.eqb Re.underscore c) = true ->
  negb (Ascii.eqb Re.underscore (to_lower c)) = true.
Proof.
  rewrite !negb_true_iff. intros H. apply (case_keeps_underscore c H).
Qed.

End SlugFacts.

(** X10.  The slug derived from a title of ASCII characters consists of
    small letters, digits, underscores and hyphens only, holds no white
    space, no hyphen next to a hyphen, and neither begins nor ends with a
    hyphen. *)
Theorem generate_slug_shape (title : str) :
  forallb Facts.is_ascii title = true ->
  forallb Facts.is_slug_letter (Admin.generate_slug title) = true /\
  Spec.tidy true (Admin.generate_slug title) = true /\
  Spec.starts_with_hyphen (rev (Admin.generate_slug title)) = false.
Proof.
  intros _. split; [apply generate_slug_letters | apply generate_slug_tidy].
Qed.

Lemma generate_slug_shape_witness :
  forallb Facts.is_slug_letter (Admin.generate_slug " -My  Snake_Case -- Title!- ")
  = true /\
  Spec.tidy true (Admin.generate_slug " -My  Snake_Case -- Title!- ") = true /\
  Spec.starts_with_hyphen
    (rev (Admin.generate_slug " -My  Snake_Case -- Title!- ")) = false.
Proof.
  apply (generate_slug_shape " -My  Snake_Case -- Title!- "). reflexivity.
Defined.

(** X11.  For a title of ASCII characters with no underscore and at least
    one letter or digit, the derived slug is not empty and passes
    [validate_slug_format], and it is the slug [on_model_change] gives a
    project submitted with that title and no slug. *)
Theorem generate_slug_valid (title : str) :
  forallb Facts.is_ascii title = true ->
  existsb (Ascii.eqb Re.underscore) title = false ->
  existsb Facts.is_alnum title = true ->
  Admin.generate_slug title <> [] /\
  Schemas.validate_slug_format (Some (Admin.generate_slug title)) = Passed /\
  Admin.resolve_slug None (Some title) = Some (Admin.generate_slug title).
Proof.
  intros _ Hu Ha.
  pose proof (generate_slug_nonempty title Ha) as Hne.
  assert (Hc : forallb Re.is_slug_char (Admin.generate_slug title) = true).
  { apply (forallb_three _ _ _ _ _ slug_char_of_letter
             (generate_slug_letters title)).
    - apply generate_slug_forallb;
        [exact lower_not_underscore | reflexivity |].
      apply existsb_false_forallb, Hu.
    - destruct (generate_slug_classes title) as (_ & _ & H3).
      exact (tidy_no_space _ _ H3). }
  split; [exact Hne |]. split.
  - unfold Schemas.validate_slug_format, when.
    destruct (match_slug_pattern_body _ Hne Hc) as [E _]. rewrite E.
    reflexivity.
  - unfold Admin.resolve_slug. destruct title as [| c t];
      [discriminate Ha | reflexivity].
Qed.

Lemma generate_slug_valid_witness :
  Admin.generate_slug "My Project" <> [] /\
  Schemas.validate_slug_format (Some (Admin.generate_slug "My Project"))
  = Passed /\
  Admin.resolve_slug None (Some "My Project")
  = Some (Admin.generate_slug "My Project").
Proof.
  apply (generate_slug_valid "My Project"); reflexivity.
Defined.

(* ================================================================= *)
(** ** Further properties: the list fields of the edit forms *)

Section ListFieldFacts.

Import Admin Spec Facts.

Lemma existsb_trim_false (q p : ascii -> bool) (s : str) :
  existsb q s = false -> existsb q (trim p s) = false.
Proof.
  rewrite !existsb_false_forallb. apply forallb_trim.
Qed.

(** Every parsed entry is clean: not empty, trimmed, without the
    separator. *)
Lemma parse_entries_clean (sep : ascii) (data : str) :
  forallb (clean_entry sep) (parse_entries sep data) = true.
Proof.
  unfold parse_entries. pose proof (split_pieces sep data) as H.
  induction (split sep data) as [| x l IH]; [reflexivity |].
  cbn [forallb] in H. apply andb_true_iff in H. destruct H as [Hx Hl].
  cbn [filter]. destruct (truthy (strip x)) eqn:T; [| exact (IH Hl)].
  cbn [map forallb]. rewrite (IH Hl), andb_true_r.
  unfold clean_entry.
  change (strip (strip x)) with (trim is_space (trim is_space x)).
  rewrite trim_idem. fold (strip x). rewrite T, str_eqb_refl.
  apply negb_true_iff in Hx. unfold strip.
  rewrite (existsb_trim_false _ _ _ Hx). reflexivity.
Qed.

(** A text of separators and white space has no entry. *)
Lemma split_blank (sep : ascii) (data : str) :
  forallb (fun c => Ascii.eqb c sep || is_space c) data = true ->
  forallb (forallb is_space) (split sep data) = true.
Proof.
  induction data as [| c s IH]; [reflexivity |]. cbn [forallb split].
  rewrite andb_true_iff. intros [Hc Hs]. specialize (IH Hs).
  destruct (Ascii.eqb c sep) eqn:E.
  - cbn [forallb]. exact IH.
  - simpl in Hc. destruct (split sep s) as [| p ps];
      cbn [forallb] in IH |- *; rewrite Hc; [reflexivity | exact IH].
Qed.

Lemma parse_entries_blank (sep : ascii) (data : str) :
  forallb (fun c => Ascii.eqb c sep || is_space c) data = true ->
  parse_entries sep data = [].
Proof.
  intros H. unfold parse_entries. pose proof (split_blank sep data H) as B.
  induction (split sep data) as [| x l IH]; [reflexivity |].
  cbn [forallb] in B. apply andb_true_iff in B. destruct B as [Bx Bl].
  cbn [filter]. change (strip x) with (trim is_space x).
  rewrite (trim_only is_space x Bx).
  cbn [truthy]. exact (IH Bl).
Qed.

End ListFieldFacts.

(** X12.  Parsing normalizes: every entry the parse returns is non-empty,
    trimmed and free of the separator, so showing a parsed list in the
    form and parsing it again gives the same list, for the comma-separated
    tech field and for the line-separated bullets field. *)
Theorem parse_entries_normalizes (text : str) :
  forallb (Spec.clean_entry Admin.comma) (Admin.parse_entries Admin.comma text)
  = true /\
  Admin.parse_entries Admin.comma
    (join ", " (Admin.parse_entries Admin.comma text))
  = Admin.parse_entries Admin.comma text /\
  Admin.parse_entries Re.newline
    (join [Re.newline] (Admin.parse_entries Re.newline text))
  = Admin.parse_entries Re.newline text.
Proof.
  split; [apply parse_entries_clean |]. split.
  - apply (parse_join Admin.comma " " _ eq_refl eq_refl).
    apply parse_entries_clean.
  - apply (parse_join Re.newline [] _ eq_refl eq_refl).
    apply parse_entries_clean.
Qed.

(** X13.  Saving a form whose list text is empty leaves the stored list as
    it is, while a text that is not empty but holds only separators and
    white space stores the empty list. *)
Theorem store_entries_blank (sep : ascii) (text : str)
        (stored : option (list str)) :
  text <> [] ->
  forallb (fun c => Ascii.eqb c sep || is_space c) text = true ->
  Admin.store_entries sep (Some text) stored = Some [] /\
  Admin.store_entries sep (Some []) stored = stored /\
  Admin.store_entries sep None stored = stored.
Proof.
  intros Hne Hb. split; [| split; reflexivity].
  unfold Admin.store_entries. rewrite (parse_entries_blank sep text Hb).
  destruct text; [congruence | reflexivity].
Qed.

Lemma store_entries_blank_witness :
  Admin.store_entries Admin.comma (Some " , ,") (Some ["React"]) = Some [] /\
  Admin.store_entries Admin.comma (Some []) (Some ["React"]) = Some ["React"] /\
  Admin.store_entries Admin.comma None (Some ["React"]) = Some ["React"].
Proof.
  apply (store_entries_blank Admin.comma " , ,").
  - discriminate.
  - reflexivity.
Defined.

(* ================================================================= *)
(** ** Further properties: the admin views *)

Section AdminViewFacts.

Import AdminViews.

Lemma split_singleton (sep : ascii) (s p : str) :
  split sep s = [p] -> existsb (Ascii.eqb sep) s = false.
Proof.
  revert p. induction s as [| c s IH]; intros p; [reflexivity |].
  cbn [split existsb]. destruct (Ascii.eqb c sep) eqn:E.
  - intros H. injection H as _ H. exfalso. exact (split_nonempty sep s H).
  - rewrite Ascii.eqb_sym, E. destruct (split sep s) as [| q qs] eqn:K.
    + exfalso. exact (split_nonempty sep s K).
    + intros H. injection H as _ H. subst qs. exact (IH q eq_refl).
Qed.

(** The last piece of a split is the text after the last separator. *)
Lemma split_last (sep : ascii) (stem ext : str) :
  existsb (Ascii.eqb sep) ext = false ->
  last (split sep (stem ++ sep :: ext)) [] = ext.
Proof.
  intros Hext. induction stem as [| c stem IH].
  - cbn [app split]. rewrite Ascii.eqb_refl, (split_none sep ext Hext).
    reflexivity.
  - cbn [app split]. destruct (Ascii.eqb c sep).
    + destruct (split sep (stem ++ sep :: ext)) as [| q qs] eqn:K;
        [exfalso; exact (split_nonempty _ _ K) | exact IH].
    + destruct (split sep (stem ++ sep :: ext)) as [| q qs] eqn:K;
        [exfalso; exact (split_nonempty _ _ K) |].
      destruct qs as [| q' qs].
      * apply split_singleton in K. rewrite existsb_app in K.
        cbn [existsb] in K. rewrite Ascii.eqb_refl, orb_true_r in K.
        discriminate K.
      * exact IH.
Qed.

Lemma last_separator (sep : ascii) (s : str) :
  existsb (Ascii.eqb sep) s = true ->
  exists stem ext,
    s = stem ++ sep :: ext /\ existsb (Ascii.eqb sep) ext = false.
Proof.
  induction s as [| c s IH]; [discriminate |]. cbn [existsb].
  destruct (existsb (Ascii.eqb sep) s) eqn:E.
  - intros _. destruct (IH eq_refl) as (stem & ext & -> & Hext).
    exists (c :: stem), ext. split; [reflexivity | exact Hext].
  - rewrite orb_false_r. intros Hc. apply Ascii.eqb_eq in Hc. subst c.
    exists [], s. split; [reflexivity | exact E].
Qed.

Lemma file_ext_of (stem ext : str) :
  existsb (Ascii.eqb dot) ext = false ->
  file_ext (stem ++ dot :: ext) = lower ext.
Proof.
  intros H. unfold file_ext. rewrite existsb_app. cbn [existsb].
  rewrite Ascii.eqb_refl, orb_true_r, (split_last dot stem ext H).
  reflexivity.
Qed.

Lemma NoDup_map_inj {A B : Type} (f : A -> B) (l : list A) (x y : A) :
  NoDup (map f l) -> In x l -> In y l -> f x = f y -> x = y.
Proof.
  induction l as [| a l IH]; [intros _ [] |]. cbn [map].
  intros Hnd Hx Hy E. inversion Hnd as [| b bs Hnot Hnd']; subst.
  destruct Hx as [-> | Hx], Hy as [-> | Hy].
  - reflexivity.
  - exfalso. apply Hnot. rewrite E. apply in_map, Hy.
  - exfalso. apply Hnot. rewrite <- E. apply in_map, Hx.
  - exact (IH Hnd' Hx Hy E).
Qed.


Lemma run_snoc (env : str -> option str) (rs : list request) (r : request)
      (s : Session) :
  run env (rs ++ [r]) s = snd (handle env r (run env rs s)).
Proof. unfold run. rewrite fold_left_app. reflexivity. Qed.

Lemma snoc_split {A : Type} (pre post rs : list A) (x r : A) :
  pre ++ x :: post = rs ++ [r] ->
  (post = [] /\ x = r /\ pre = rs) \/
  (exists post', post = post' ++ [r] /\ rs = pre ++ x :: post').
Proof.
  intros E. induction post as [| y post' _] using rev_ind.
  - left. apply app_inj_tail in E. destruct E; auto.
  - right. exists post'.
    change (pre ++ x :: post' ++ [y]) with (pre ++ (x :: post') ++ [y]) in E.
    rewrite app_assoc in E. apply app_inj_tail in E. destruct E as [E1 E2].
    subst y. split; [reflexivity | symmetry; exact E1].
Qed.

End AdminViewFacts.

(** X14.  An uploaded cover image is accepted exactly when its name has a
    dot and the text after the last dot is, in small letters, one of jpg,
    jpeg, png, webp and gif; the stored reference is then the fixed
    directory followed by the name as given.  A name without a dot is
    refused. *)
Theorem cover_image_accepted (filename : str) :
  AdminViews.cover_image_path filename
  = AdminViews.Ok ("content/images/projects/" ++ filename) <->
  exists stem ext : str,
    filename = stem ++ AdminViews.dot :: ext /\
    existsb (Ascii.eqb AdminViews.dot) ext = false /\
    In (lower ext) AdminViews.allowed_extensions.
Proof.
  unfold AdminViews.cover_image_path. split.
  - destruct (mem (AdminViews.file_ext filename) AdminViews.allowed_extensions)
      eqn:M; [| discriminate]. intros _. apply mem_In in M.
    unfold AdminViews.file_ext in M.
    destruct (existsb (Ascii.eqb AdminViews.dot) filename) eqn:D.
    + destruct (last_separator _ _ D) as (stem & ext & -> & Hext).
      rewrite (split_last _ stem ext Hext) in M.
      exists stem, ext. auto.
    + exfalso. cbn in M. intuition discriminate.
  - intros (stem & ext & -> & Hext & Hin).
    rewrite (file_ext_of stem ext Hext).
    apply mem_In in Hin. rewrite Hin. reflexivity.
Qed.



(** X16.  Saving a stored project again with its own slug is never
    refused, provided the stored slugs are pairwise distinct: a project
    is not in conflict with itself. *)
Theorem own_slug_accepted (rows : list AdminViews.ProjectRow)
        (r : AdminViews.ProjectRow) (title : option str) :
  NoDup (map AdminViews.row_slug rows) -> In r rows ->
  AdminViews.row_slug r <> [] ->
  AdminViews.on_model_change_slug rows (Some (AdminViews.row_id r))
    (Some (AdminViews.row_slug r)) title
  = AdminViews.Ok (Some (AdminViews.row_slug r)).
Proof.
  intros Hnd Hin Hne. unfold AdminViews.on_model_change_slug.
  assert (E : Admin.resolve_slug (Some (AdminViews.row_slug r)) title
              = Some (AdminViews.row_slug r)).
  { unfold Admin.resolve_slug. destruct title as [t |]; [| reflexivity].
    destruct (AdminViews.row_slug r); [congruence | reflexivity]. }
  rewrite E. destruct (AdminViews.row_slug r) as [| c s] eqn:K;
    [congruence |].
  destruct (AdminViews.existing rows _ (c :: s)) as [r' |] eqn:F;
    [| reflexivity].
  exfalso. unfold AdminViews.existing in F. apply find_some in F.
  destruct F as [Hin' T]. apply andb_true_iff in T. destruct T as [T1 T2].
  apply str_eqb_eq in T1. rewrite <- K in T1.
  assert (r' = r) by (apply (NoDup_map_inj _ _ _ _ Hnd Hin' Hin T1)).
  subst r'. cbn [AdminViews.other_than] in T2.
  rewrite Z.eqb_refl in T2. discriminate T2.
Qed.

Lemma own_slug_accepted_witness :
  AdminViews.on_model_change_slug
    [AdminViews.mkProjectRow 1 "blog-engine";
     AdminViews.mkProjectRow 2 "weather-app"]
    (Some 2%Z) (Some "weather-app") (Some "Weather App")
  = AdminViews.Ok (Some "weather-app").
Proof.
  apply (own_slug_accepted
           [AdminViews.mkProjectRow 1 "blog-engine";
            AdminViews.mkProjectRow 2 "weather-app"]
           (AdminViews.mkProjectRow 2 "weather-app") (Some "Weather App")).
  - repeat constructor; simpl; intuition discriminate.
  - right. left. reflexivity.
  - discriminate.
Defined.

(** X17.  The preview of a message in the list of contact messages is
    never longer than 103 characters and always begins with the first 100
    characters of the message; a message of more than 100 characters is
    shown as exactly 103. *)
Theorem message_preview_bounds (message : str) :
  (length (AdminViews.message_preview message) <= 103)%nat /\
  firstn 100 (AdminViews.message_preview message) = firstn 100 message /\
  length (AdminViews.message_preview message)
  = (if (100 <? length message)%nat then 103%nat else length message).
Proof.
  unfold AdminViews.message_preview.
  destruct (100 <? length message)%nat eqn:E.
  - apply Nat.ltb_lt in E.
    assert (L : length (firstn 100 message) = 100%nat)
      by (apply firstn_length_le; lia).
    split; [| split].
    + rewrite length_app, L. simpl. lia.
    + rewrite firstn_app, L, Nat.sub_diag, firstn_firstn. cbn [firstn].
      rewrite app_nil_r. reflexivity.
    + rewrite length_app, L. reflexivity.
  - apply Nat.ltb_ge in E. split; [lia |]. split; reflexivity.
Qed.

(** X18.  Starting from a session that is not logged in, the session is
    authenticated after a sequence of requests exactly when the sequence
    holds a login with the right credentials that no logout follows; and
    the index view shows the admin index exactly to an authenticated
    session, redirecting every other one to the login page. *)
Theorem session_authenticated (env : str -> option str)
        (rs : list AdminViews.request) :
  (AdminViews.is_authenticated (AdminViews.run env rs None) = true <->
   exists pre username password post,
     rs = pre ++ AdminViews.PostLogin username password :: post /\
     AdminViews.authenticate env username password = true /\
     ~ In AdminViews.GetLogout post) /\
  (forall s : AdminViews.Session,
      fst (AdminViews.index s)
      = (if AdminViews.is_authenticated s then AdminViews.AdminIndex
         else AdminViews.Redirect ".login_view")).
Proof.
  split; [| intros s; unfold AdminViews.index;
            destruct (AdminViews.is_authenticated s); reflexivity].
  induction rs as [| r rs IH] using rev_ind.
  - split; [discriminate |]. intros (pre & u & p & post & E & _).
    destruct pre; discriminate E.
  - rewrite run_snoc.
    assert (Keep : snd (AdminViews.handle env r (AdminViews.run env rs None))
                   = AdminViews.run env rs None ->
                   r <> AdminViews.GetLogout ->
                   (forall u p, r = AdminViews.PostLogin u p ->
                                AdminViews.authenticate env u p = false) ->
                   AdminViews.is_authenticated
                     (snd (AdminViews.handle env r (AdminViews.run env rs None)))
                   = true <->
                   exists pre username password post,
                     rs ++ [r]
                     = pre ++ AdminViews.PostLogin username password :: post /\
                     AdminViews.authenticate env username password = true /\
                     ~ In AdminViews.GetLogout post).
    { intros Hsame Hr Hfail. rewrite Hsame, IH. split.
      - intros (pre & u & p & post & -> & Ha & Hpost).
        exists pre, u, p, (post ++ [r]). split; [| split; [exact Ha |]].
        + rewrite <- app_assoc. reflexivity.
        + intros Hin. apply in_app_or in Hin.
          destruct Hin as [Hin | [Hin | []]]; [exact (Hpost Hin) |].
          exact (Hr Hin).
      - intros (pre & u & p & post & E & Ha & Hpost).
        symmetry in E. destruct (snoc_split _ _ _ _ _ E)
          as [(_ & Hx & _) | (post' & -> & ->)].
        + rewrite (Hfail u p (eq_sym Hx)) in Ha. discriminate Ha.
        + exists pre, u, p, post'. split; [reflexivity |].
          split; [exact Ha |]. intros Hin. apply Hpost.
          apply in_or_app. left. exact Hin. }
    destruct r as [| | u p |].
    + apply Keep; [| discriminate | discriminate].
      cbn [AdminViews.handle]. unfold AdminViews.index.
      destruct (negb _); reflexivity.
    + apply Keep; [reflexivity | discriminate | discriminate].
    + cbn [AdminViews.handle AdminViews.login_view] in *.
      destruct (AdminViews.authenticate env u p) eqn:A.
      * split; [| reflexivity]. intros _.
        exists rs, u, p, []. split; [reflexivity |].
        split; [exact A | intros []].
      * apply Keep; [reflexivity | discriminate |].
        intros u' p' E. injection E as -> ->. exact A.
    + cbn [AdminViews.handle AdminViews.logout_view snd
             AdminViews.is_authenticated].
      split; [discriminate |].
      intros (pre & u & p & post & E & _ & Hpost). exfalso.
      symmetry in E. destruct (snoc_split _ _ _ _ _ E)
        as [(_ & Hx & _) | (post' & -> & _)]; [discriminate Hx |].
      apply Hpost, in_or_app. right. left. reflexivity.
Qed.

(* ================================================================= *)
(** ** Further properties: the routes *)

Section RouteFacts.

Import Routes.

Lemma lower_idem (s : str) : lower (lower s) = lower s.
Proof. apply lower_fixed, lower_no_upper. Qed.

Lemma mem_false (x : str) (l : list str) : mem x l = false <-> ~ In x l.
Proof.
  rewrite <- mem_In. destruct (mem x l); split; congruence.
Qed.

End RouteFacts.

(** X19.  The [featured] query parameter is read without regard to letter
    case: it selects the featured projects exactly when it is, in small
    letters, one of true, 1 and yes, the others exactly when it is one of
    false, 0 and no, and any other value, the empty one included, is the
    400 response; a request without the parameter is not filtered. *)
Theorem featured_filter_reading (p : str) :
  Routes.featured_filter (Some p) = Routes.featured_filter (Some (lower p)) /\
  (Routes.featured_filter (Some p) = Routes.Featured true <->
   In (lower p) ["true"; "1"; "yes"]) /\
  (Routes.featured_filter (Some p) = Routes.Featured false <->
   In (lower p) ["false"; "0"; "no"]) /\
  (Routes.featured_filter (Some p) = Routes.InvalidFeatured <->
   ~ In (lower p) ["true"; "1"; "yes"; "false"; "0"; "no"]) /\
  Routes.featured_filter (Some p) <> Routes.NoFilter.
Proof.
  unfold Routes.featured_filter. rewrite lower_idem.
  split; [reflexivity |].
  destruct (mem (lower p) ["true"; "1"; "yes"]) eqn:T.
  - apply mem_In in T. repeat split; try discriminate; try tauto.
    + intros H. exfalso.
      destruct T as [T | [T | [T | []]]]; rewrite <- T in H;
        simpl in H; intuition discriminate.
    + intros H. exfalso. apply H. simpl in T |- *. tauto.
  - apply mem_false in T.
    destruct (mem (lower p) ["false"; "0"; "no"]) eqn:F.
    + apply mem_In in F. repeat split; try discriminate; try tauto.
      intros H. exfalso. apply H. simpl in F |- *. tauto.
    + apply mem_false in F. repeat split; try discriminate; try tauto.
      intros _ H. simpl in T, F, H. tauto.
Qed.

(** X20.  A contact submission answered with 201 was sent as JSON, was
    committed, and is stored as it was sent, the message with its outer
    white space: its name has 1 to 200 characters, its address has the
    syntax of an address and at most 200 characters, its message has at
    most 5000 characters and at least 10 once trimmed.  Every other
    answer stores nothing, and whether the notification email could be
    sent changes neither the answer nor what is stored. *)
Theorem accepted_contact (is_email : str -> bool) (is_json : bool)
        (data : option Routes.ContactPayload) (commit_ok email_sent : bool)
        (record : Routes.ContactRecord) :
  Routes.submit_contact is_email is_json data commit_ok email_sent
  = (201%Z, Some record) ->
  data = Some (Routes.mkPayload (Some (Routes.contact_name record))
                 (Some (Routes.contact_email record))
                 (Some (Routes.contact_message record))) /\
  is_json = true /\ commit_ok = true /\
  (1 <= length (Routes.contact_name record) <= 200)%nat /\
  is_email (Routes.contact_email record) = true /\
  (length (Routes.contact_email record) <= 200)%nat /\
  (length (Routes.contact_message record) <= 5000)%nat /\
  (10 <= length (strip (Routes.contact_message record)))%nat /\
  (forall json d c e,
      fst (Routes.submit_contact is_email json d c e) <> 201%Z ->
      snd (Routes.submit_contact is_email json d c e) = None) /\
  (forall json d c,
      Routes.submit_contact is_email json d c true
      = Routes.submit_contact is_email json d c false).
Proof.
  intros H.
  assert (Rest : (forall json d c e,
                     fst (Routes.submit_contact is_email json d c e) <> 201%Z ->
                     snd (Routes.submit_contact is_email json d c e) = None) /\
                 (forall json d c,
                     Routes.submit_contact is_email json d c true
                     = Routes.submit_contact is_email json d c false)).
  { split; [| reflexivity]. intros json d c e.
    unfold Routes.submit_contact. destruct json; [| reflexivity].
    destruct d as [d |]; [| reflexivity].
    destruct (Routes.load is_email d); [| reflexivity].
    destruct c; [cbn; congruence | reflexivity]. }
  unfold Routes.submit_contact in H.
  destruct is_json; [| discriminate H]. cbn [negb] in H.
  destruct data as [[n e m] |]; [| discriminate H].
  unfold Routes.load in H. cbn [Routes.name Routes.email Routes.message] in H.
  destruct n as [n |]; [| discriminate H].
  destruct e as [e |]; [| discriminate H].
  destruct m as [m |]; [| discriminate H].
  destruct (_ && _) eqn:F in H; [| discriminate H].
  unfold Schemas.validate_message_content, when in H.
  destruct (length (strip m) <? 10)%nat eqn:T; [discriminate H |].
  destruct commit_ok; [| discriminate H].
  injection H as <-. cbn [Routes.contact_name Routes.contact_email
                            Routes.contact_message].
  unfold Schemas.message_field_ok, Schemas.Length in F.
  rewrite !andb_true_iff in F.
  destruct F as [[[F1 F2] [F3 [_ F4]]] [F5 F6]].
  apply Nat.leb_le in F1, F2, F4, F6. apply Nat.ltb_ge in T.
  repeat split; try assumption; try apply Rest; lia.
Qed.

Lemma accepted_contact_witness :
  (10 <= length (strip "  Hello, I would like to get in touch.  "))%nat.
Proof.
  apply (accepted_contact (contains "@") true
           (Some (Routes.mkPayload (Some "Ada") (Some "ada@example.com")
                    (Some "  Hello, I would like to get in touch.  ")))
           true false
           (Routes.mkContact "Ada" "ada@example.com"
              "  Hello, I would like to get in touch.  ")).
  reflexivity.
Defined.

(* ================================================================= *)
(** ** Further properties: the scripts *)

Section ScriptFacts.

Import Scripts.

Lemma mem_app (x : str) (a b : list str) :
  mem x (a ++ b) = mem x a || mem x b.
Proof. unfold mem. apply existsb_app. Qed.

Lemma starts_with_app (n h : str) :
  starts_with n h = true <-> exists suf, h = n ++ suf.
Proof.
  revert h. induction n as [| a n IH]; intros h.
  - split; [intros _; exists h; reflexivity | destruct h; reflexivity].
  - destruct h as [| b h]; cbn [starts_with].
    + split; [discriminate | intros [suf E]; discriminate E].
    + rewrite andb_true_iff, Ascii.eqb_eq, IH. split.
      * intros [-> [suf ->]]. exists suf. reflexivity.
      * intros [suf E]. injection E as -> ->. split; [reflexivity |].
        exists suf. reflexivity.
Qed.

(** [needle in hay] holds exactly when the text is somewhere in [hay]. *)
Lemma contains_app (n h : str) :
  contains n h = true <-> exists pre suf, h = pre ++ n ++ suf.
Proof.
  induction h as [| b h IH].
  - cbn [contains]. rewrite orb_false_r, starts_with_app. split.
    + intros [suf E]. exists [], suf. exact E.
    + intros (pre & suf & E). destruct pre as [| c pre]; [| discriminate E].
      exists suf. exact E.
  - cbn [contains]. rewrite orb_true_iff, starts_with_app, IH. split.
    + intros [[suf E] | (pre & suf & E)].
      * exists [], suf. exact E.
      * exists (b :: pre), suf. rewrite E. reflexivity.
    + intros (pre & suf & E). destruct pre as [| c pre].
      * left. exists suf. exact E.
      * right. injection E as _ E. exists pre, suf. exact E.
Qed.

Lemma contains_inside (n h a b : str) :
  contains n h = true -> contains n (a ++ h ++ b) = true.
Proof.
  rewrite !contains_app. intros (pre & suf & ->).
  exists (a ++ pre), (suf ++ b). rewrite <- !app_assoc. reflexivity.
Qed.

Lemma filter_none {A : Type} (f : A -> bool) (l : list A) :
  (forall x, In x l -> f x = false) -> filter f l = [].
Proof.
  induction l as [| a l IH]; [reflexivity |]. intros H. cbn [filter].
  rewrite (H a (or_introl eq_refl)). apply IH. intros x Hx.
  apply H. right. exact Hx.
Qed.

Lemma sum_le_length (checks : list bool) : (sum checks <= length checks)%nat.
Proof.
  unfold sum. induction checks as [| [] checks IH]; simpl; lia.
Qed.

End ScriptFacts.

(** X21.  The data step of the image migration leaves no row with a NULL
    image column, changes a row only when one of its two columns is NULL,
    and then sets both columns to the default names, so a value set in
    one column is replaced when the other is NULL; running it again
    changes nothing. *)
Theorem update_rows_fills (rows : list Scripts.MetaImages) :
  Forall (fun r => Scripts.avatar_image r <> None /\
                   Scripts.profile_image r <> None)
         (Scripts.update_rows rows) /\
  Scripts.update_rows (Scripts.update_rows rows) = Scripts.update_rows rows /\
  (forall r, Scripts.update_row r = r <->
             Scripts.avatar_image r <> None /\ Scripts.profile_image r <> None) /\
  (forall avatar : str,
      Scripts.update_row (Scripts.mkImages (Some avatar) None)
      = Scripts.mkImages (Some "avatar.webp") (Some "profile.webp")) /\
  (forall profile : str,
      Scripts.update_row (Scripts.mkImages None (Some profile))
      = Scripts.mkImages (Some "avatar.webp") (Some "profile.webp")).
Proof.
  split; [| split; [| split; [| split; reflexivity]]].
  - unfold Scripts.update_rows. apply Forall_forall. intros r Hin.
    apply in_map_iff in Hin. destruct Hin as ([[a |] [p |]] & <- & _);
      cbn; split; discriminate.
  - unfold Scripts.update_rows. rewrite map_map. apply map_ext.
    intros [[a |] [p |]]; reflexivity.
  - intros [[a |] [p |]]; cbn; split;
      try (intros [H1 H2]; congruence); try reflexivity;
      try (intros _; split; discriminate); intros H; discriminate H.
Qed.

(** X22.  After the schema step of the image migration the table has both
    image columns, the columns it had are kept in their order, no column
    appears twice if none did, and running the step again adds nothing. *)
Theorem add_columns_once (columns : list str) :
  NoDup columns ->
  mem "avatar_image" (Scripts.add_columns columns) = true /\
  mem "profile_image" (Scripts.add_columns columns) = true /\
  firstn (length columns) (Scripts.add_columns columns) = columns /\
  NoDup (Scripts.add_columns columns) /\
  Scripts.add_columns (Scripts.add_columns columns)
  = Scripts.add_columns columns.
Proof.
  intros Hnd. unfold Scripts.add_columns.
  destruct (mem "avatar_image" columns) eqn:A;
    destruct (mem "profile_image" columns) eqn:P; cbn [negb].
  - rewrite A, P. cbn [negb]. rewrite firstn_all. auto.
  - rewrite !mem_app, A, P. cbn [negb].
    rewrite firstn_app, firstn_all, Nat.sub_diag, app_nil_r.
    repeat split; try reflexivity.
    apply NoDup_app; [exact Hnd | repeat constructor; intros [] |].
    intros x Hx [<- | []]. apply mem_In in Hx. congruence.
  - rewrite !mem_app, A, P. cbn [negb].
    rewrite firstn_app, firstn_all, Nat.sub_diag, app_nil_r.
    repeat split; try reflexivity.
    apply NoDup_app; [exact Hnd | repeat constructor; intros [] |].
    intros x Hx [<- | []]. apply mem_In in Hx. congruence.
  - rewrite !mem_app, A, P. cbn [negb].
    rewrite <- app_assoc.
    rewrite firstn_app, firstn_all, Nat.sub_diag, app_nil_r.
    repeat split; try reflexivity.
    apply NoDup_app; [exact Hnd | |].
    + repeat constructor; simpl; intuition discriminate.
    + intros x Hx [<- | [<- | []]]; apply mem_In in Hx; congruence.
Qed.

Lemma add_columns_once_witness :
  Scripts.add_columns
    (Scripts.add_columns ["id"; "hero_title"; "avatar_image"])
  = Scripts.add_columns ["id"; "hero_title"; "avatar_image"].
Proof.
  apply (add_columns_once ["id"; "hero_title"; "avatar_image"]).
  repeat constructor; simpl; intuition discriminate.
Defined.

(** X23.  A requirements file that passes [check_requirements] still
    passes after text is added before and after it, and a missing file
    never passes: the check looks for the name of each package anywhere
    in the text, without regard to letter case. *)
Theorem check_requirements_monotone (content before after : str) :
  Scripts.check_requirements (Some content) = true ->
  Scripts.check_requirements (Some (before ++ content ++ after)) = true /\
  Scripts.check_requirements None = false.
Proof.
  intros H. split; [| reflexivity].
  unfold Scripts.check_requirements, Scripts.missing_packages in *.
  assert (K : forall package,
             In package Scripts.required_packages ->
             contains (lower package) (lower content) = true).
  { intros package Hin.
    destruct (contains (lower package) (lower content)) eqn:C;
      [reflexivity |].
    assert (Hf : In package
                   (filter (fun q => negb (contains (lower q) (lower content)))
                           Scripts.required_packages)).
    { apply filter_In. split; [exact Hin | rewrite C; reflexivity]. }
    destruct (filter _ Scripts.required_packages); [destruct Hf |].
    discriminate H. }
  assert (E : filter
                (fun q => negb (contains (lower q)
                                         (lower (before ++ content ++ after))))
                Scripts.required_packages = []).
  { apply filter_none.
    intros package Hin. unfold lower. rewrite !map_app.
    rewrite (contains_inside _ _ _ _ (K package Hin)). reflexivity. }
  rewrite E. reflexivity.
Qed.

Lemma check_requirements_monotone_witness :
  Scripts.check_requirements
    (Some ("# pinned" ++
           "Flask-SQLAlchemy gunicorn alembic psycopg2-binary" ++ " pytest"))
  = true.
Proof.
  apply (check_requirements_monotone
           "Flask-SQLAlchemy gunicorn alembic psycopg2-binary"
           "# pinned" " pytest").
  reflexivity.
Defined.

(** X24.  The deployment validation exits with status 0 exactly when every
    one of its checks passed, and with status 1 otherwise. *)
Theorem main_status (checks : list bool) :
  (Scripts.main checks = 0%Z <-> forallb (fun b => b) checks = true) /\
  (Scripts.main checks = 0%Z \/ Scripts.main checks = 1%Z).
Proof.
  unfold Scripts.main. cbv zeta. split.
  - induction checks as [| b checks IH]; [split; reflexivity |].
    pose proof (sum_le_length checks) as L.
    unfold Scripts.sum in *. destruct b; simpl.
    + exact IH.
    + destruct (_ =? S _)%nat eqn:E.
      * apply Nat.eqb_eq in E. lia.
      * split; discriminate.
  - destruct (_ =? _)%nat; [left | right]; reflexivity.
Qed.

(** X25.  The domain rule of the social links is a test for a piece of
    text: a link whose platform is github in any letter case passes, alone
    in the list, exactly when its URL holds github.com somewhere, wherever
    that is in the URL. *)
Theorem github_domain_is_substring (platform url : str) (icon : option str) :
  lower platform = "github" ->
  (Schemas.validate_social_links
     (Some [Schemas.mkLink (Some platform) (Some url) icon]) = Passed <->
   exists before after : str, url = before ++ "github.com" ++ after).
Proof.
  intros Hp. rewrite validate_social_links_passed, <- contains_app.
  assert (E : Spec.domain_ok (Schemas.mkLink (Some platform) (Some url) icon)
              = contains "github.com" url).
  { unfold Spec.domain_ok, Spec.platform_key, Spec.required_domains.
    cbn [Schemas.platform Schemas.url Schemas.get]. rewrite Hp.
    cbn [existsb]. apply orb_false_r. }
  split.
  - intros [_ Hok]. inversion Hok as [| l ls Hl _]; subst.
    rewrite <- E. exact Hl.
  - intros Hc. split.
    + repeat constructor. intros [].
    + repeat constructor. rewrite E. exact Hc.
Qed.

Lemma github_domain_is_substring_witness :
  Schemas.validate_social_links
    (Some [Schemas.mkLink (Some "GitHub")
             (Some "https://example.org/?next=github.com") None]) = Passed <->
  exists before after : str,
    "https://example.org/?next=github.com" = before ++ "github.com" ++ after.
Proof.
  apply (github_domain_is_substring "GitHub"
           "https://example.org/?next=github.com" None).
  reflexivity.
Defined.
